(** * PYTHIA / Ultimate Investigator: clue registry, configuration resolver
    and currency ledger

  A shallow embedding of [src/common/models.py], of the currency and item
  commands of [src/exts/gacha_management.py], of the toggle and mode
  commands of [src/exts/bullet_config.py] and of the start-up loop of
  [src/main.py].

  Conventions of the embedding.
  - Python [str] values are [string]s of 8-bit characters; case folding
    (PostgreSQL [UPPER], [ILIKE]) is the ordinal one on the letters
    [A]-[Z] / [a]-[z] and leaves every other character alone.
  - Python [int] and the integer columns are [Z].
  - A table whose rows are scanned by a raw query is the [list] of its rows
    in storage order; a table addressed by a unique key is a [gmap].
  - A coroutine is the function from the store before the call to the
    outcome and the store after it; a raised exception is an error value. *)

From Stdlib Require Import ZArith Ascii String List Bool Lia.
From stdpp Require Import base option gmap strings list fin_maps pretty.

Local Open Scope Z_scope.

(** ** Text: case folding, regular-expression escaping, LIKE patterns *)

Module Text.

Definition backslash : ascii := Eval cbv in ascii_of_nat 92.
Definition percent : ascii := Eval cbv in ascii_of_nat 37.
Definition underscore : ascii := Eval cbv in ascii_of_nat 95.

Definition is_upper (c : ascii) : bool :=
  let n := nat_of_ascii c in (Nat.leb 65 n && Nat.leb n 90)%bool.

Definition is_lower (c : ascii) : bool :=
  let n := nat_of_ascii c in (Nat.leb 97 n && Nat.leb n 122)%bool.

Definition ascii_lower (c : ascii) : ascii :=
  if is_upper c then ascii_of_nat (nat_of_ascii c + 32) else c.

Definition ascii_upper (c : ascii) : ascii :=
  if is_lower c then ascii_of_nat (nat_of_ascii c - 32) else c.

(** SQL [UPPER(s)]. *)
Fixpoint UPPER (s : string) : string :=
  match s with
  | EmptyString => EmptyString
  | String c s' => String (ascii_upper c) (UPPER s')
  end.

(** SQL [CONCAT(a, b, c)]. *)
Definition CONCAT (a b c : string) : string := a +:+ b +:+ c.

(** *** Substitution of a one-character class

    Both [ILIKE_ESCAPE.sub(r"\\\1", value)] (Python [re]) and
    [regexp_replace(attr, '([\%_])', '\\\1', 'g')] (PostgreSQL) replace
    every match of a pattern that is a single captured character class.
    The replacement template is a sequence of literal characters and
    references to group 1. *)

Inductive repl_item : Type :=
| RLit (c : ascii)
| RGroup1.

Fixpoint expand (tpl : list repl_item) (m : ascii) : string :=
  match tpl with
  | [] => EmptyString
  | RLit c :: tpl' => String c (expand tpl' m)
  | RGroup1 :: tpl' => String m (expand tpl' m)
  end.

Fixpoint re_sub (cls : ascii -> bool) (tpl : list repl_item) (s : string)
  : string :=
  match s with
  | EmptyString => EmptyString
  | String c s' =>
      if cls c then expand tpl c +:+ re_sub cls tpl s'
      else String c (re_sub cls tpl s')
  end.

(** The class [[\%_]]: inside brackets [\%] is an escaped percent sign, so
    the class holds the percent sign and the underscore, and nothing
    else. *)
Definition ILIKE_ESCAPE (c : ascii) : bool :=
  (Ascii.eqb c percent || Ascii.eqb c underscore)%bool.

(** The template [\\\1]: an escaped backslash, then group 1. *)
Definition escape_template : list repl_item := [RLit backslash; RGroup1].

(** [escape_ilike] of models.py. *)
Definition escape_ilike (value : string) : string :=
  re_sub ILIKE_ESCAPE escape_template value.

(** The value of the SQL expression that [generate_regexp(attribute)]
    builds, as a function of the attribute's value. *)
Definition generate_regexp (attribute : string) : string :=
  re_sub ILIKE_ESCAPE escape_template attribute.

(** *** LIKE patterns

    PostgreSQL's [LIKE]: in the pattern [%] matches any run of characters,
    [_] any one character, and the escape character (the backslash, no
    [ESCAPE] clause being given) makes the character after it stand for
    itself. A pattern that ends in the escape character is an error. *)

Inductive like_tok : Type :=
| AnySeq
| AnyChar
| Lit (c : ascii).

Fixpoint like_lex (p : string) : option (list like_tok) :=
  match p with
  | EmptyString => Some []
  | String c p' =>
      if Ascii.eqb c backslash then
        match p' with
        | EmptyString => None
        | String d p'' => cons (Lit d) <$> like_lex p''
        end
      else if Ascii.eqb c percent then cons AnySeq <$> like_lex p'
      else if Ascii.eqb c underscore then cons AnyChar <$> like_lex p'
      else cons (Lit c) <$> like_lex p'
  end.

(** Character comparison: [ci = true] for [ILIKE], [false] for [LIKE]. *)
Definition chr_eq (ci : bool) (a b : ascii) : bool :=
  if ci then Ascii.eqb (ascii_lower a) (ascii_lower b) else Ascii.eqb a b.

Fixpoint like_toks (ci : bool) (ts : list like_tok) (s : string) : bool :=
  match ts with
  | [] => match s with EmptyString => true | _ => false end
  | Lit c :: ts' =>
      match s with
      | EmptyString => false
      | String d s' => (chr_eq ci c d && like_toks ci ts' s')%bool
      end
  | AnyChar :: ts' =>
      match s with
      | EmptyString => false
      | String _ s' => like_toks ci ts' s'
      end
  | AnySeq :: ts' =>
      (fix skip (s : string) : bool :=
         (like_toks ci ts' s
          || match s with
             | EmptyString => false
             | String _ s' => skip s'
             end)%bool) s
  end.

(** [s ILIKE p]. The error of an ill-formed pattern is the [None] of
    [like_lex] and is read here as no match. The substring query never
    builds such a pattern (see [like_lex_concat]); [find_possible_bullet]
    does for a trigger that ends in a backslash, where the database raises
    and this definition answers false. *)
Definition ILIKE (s p : string) : bool :=
  match like_lex p with
  | Some ts => like_toks true ts s
  | None => false
  end.

(** *** Substrings, for stating what a search finds *)

Fixpoint ci_prefix (needle hay : string) : bool :=
  match needle with
  | EmptyString => true
  | String c needle' =>
      match hay with
      | EmptyString => false
      | String d hay' => (chr_eq true c d && ci_prefix needle' hay')%bool
      end
  end.

(** [needle] occurs in [hay], letter case ignored. *)
Fixpoint ci_contains (needle hay : string) : bool :=
  (ci_prefix needle hay
   || match hay with
      | EmptyString => false
      | String _ hay' => ci_contains needle hay'
      end)%bool.

Fixpoint has_char (c : ascii) (s : string) : bool :=
  match s with
  | EmptyString => false
  | String d s' => (Ascii.eqb c d || has_char c s')%bool
  end.

(** Equality of two strings up to letter case. *)
Definition ci_equal (a b : string) : bool := String.eqb (UPPER a) (UPPER b).

(** The pattern that stands for a string itself: one literal per
    character. *)
Fixpoint lits (s : string) : list like_tok :=
  match s with
  | EmptyString => []
  | String c s' => Lit c :: lits s'
  end.

(** What [re_sub] does to one character when the template is
    [escape_template]. *)
Definition escape_char (c : ascii) : string :=
  if ILIKE_ESCAPE c then String backslash (String c EmptyString)
  else String c EmptyString.

(** Equality of two strings up to letter case, character by character as
    [ILIKE] compares them. *)
Fixpoint ci_same (a b : string) : bool :=
  match a, b with
  | EmptyString, EmptyString => true
  | String c a', String d b' => (chr_eq true c d && ci_same a' b')%bool
  | _, _ => false
  end.

(** *** The template pattern

    [TEMPLATE_MARKDOWN = re.compile(r"({{(.*)}})")]: two opening braces, a
    greedy run of characters other than the newline, two closing braces.
    [search] takes the leftmost start; the greedy run then ends before the
    last pair of closing braces of the line. *)

Definition is_newline (c : ascii) : bool := Ascii.eqb c (ascii_of_nat 10).

(** The text up to its first newline: what the run [.*] can cover. *)
Fixpoint line_of (s : string) : string :=
  match s with
  | EmptyString => EmptyString
  | String c s' => if is_newline c then EmptyString else String c (line_of s')
  end.

Definition opens (s : string) : option string :=
  match s with
  | String c1 (String c2 rest) =>
      if (Ascii.eqb c1 "{" && Ascii.eqb c2 "{")%bool then Some rest else None
  | _ => None
  end.

Definition closes (s : string) : bool :=
  match s with
  | String c1 (String c2 _) => (Ascii.eqb c1 "}" && Ascii.eqb c2 "}")%bool
  | _ => false
  end.

(** Group 2 of a match that starts here, on the line [l] after the opening
    braces: the text before the last pair of closing braces. *)
Fixpoint before_last_close (l : string) : option string :=
  match l with
  | EmptyString => None
  | String c l' =>
      match before_last_close l' with
      | Some group => Some (String c group)
      | None => if closes l then Some EmptyString else None
      end
  end.

Definition match_here (s : string) : option string :=
  match opens s with
  | Some rest => before_last_close (line_of rest)
  | None => None
  end.

(** [TEMPLATE_MARKDOWN.search(s)], as group 2 of the match. *)
Fixpoint TEMPLATE_MARKDOWN_search (s : string) : option string :=
  match match_here s with
  | Some group => Some group
  | None =>
      match s with
      | EmptyString => None
      | String _ s' => TEMPLATE_MARKDOWN_search s'
      end
  end.

(** A text that holds [{{group}}], the group free of newlines. *)
Definition holds_placeholder (s group : string) : Prop :=
  exists pre post,
    s = pre +:+ "{{" +:+ group +:+ "}}" +:+ post
    /\ has_char (ascii_of_nat 10) group = false.

End Text.

(** ** Clue registry: [TruthBullet] of models.py *)

Module TruthBullet.
Import Text.

(** A row of the clue table. [aliases] is the [text[]] column the raw
    queries unnest. *)
Record t : Type := mk {
  id : Z;
  channel_id : Z;
  trigger : string;
  aliases : list string;
  description : string;
  hidden : bool;
  found : bool;
  finder : option Z
}.

(** [query_first]: the first row, in storage order, that the WHERE clause
    accepts. *)
Definition query_first (where_ : t -> bool) (rows : list t) : option t :=
  List.find where_ rows.

(** The WHERE clause of [FIND_TRUTH_BULLET_STR], [p1] and [p2] being the
    parameters [$1] and [$2]. *)
Definition FIND_TRUTH_BULLET_STR (p1 : Z) (p2 : string) (row : t) : bool :=
  (Z.eqb (channel_id row) p1
   && Bool.eqb (found row) false
   && (ILIKE p2 (CONCAT "%" (generate_regexp (trigger row)) "%")
       || existsb
            (fun alias => ILIKE p2 (CONCAT "%" (generate_regexp alias) "%"))
            (aliases row)))%bool.

(** The WHERE clause of [VALIDATE_TRUTH_BULLET_STR]. *)
Definition VALIDATE_TRUTH_BULLET_STR (p1 : Z) (p2 : string) (row : t) : bool :=
  (Z.eqb (channel_id row) p1
   && (String.eqb (UPPER p2) (UPPER (trigger row))
       || existsb
            (fun alias => String.eqb (UPPER p2) (UPPER alias))
            (aliases row)))%bool.

(** The WHERE clause of [FIND_TRUTH_BULLET_EXACT_STR]. *)
Definition FIND_TRUTH_BULLET_EXACT_STR (p1 : Z) (p2 : string) (row : t)
  : bool :=
  (Z.eqb (channel_id row) p1
   && (String.eqb (UPPER p2) (UPPER (trigger row))
       || existsb
            (fun alias => String.eqb (UPPER p2) (UPPER alias))
            (aliases row)))%bool.

(** [TruthBullet.find]. *)
Definition find (rows : list t) (channel_id : Z) (content : string)
  : option t :=
  query_first (FIND_TRUTH_BULLET_STR channel_id content) rows.

(** [TruthBullet.find_exact]. *)
Definition find_exact (rows : list t) (channel_id : Z) (content : string)
  : option t :=
  query_first (FIND_TRUTH_BULLET_EXACT_STR channel_id content) rows.

(** [TruthBullet.validate]: the raw client's [query_first] yields the
    one-column row [1] where the model's yields the record; only
    [is not None] is looked at. *)
Definition validate (rows : list t) (channel_id : Z) (trigger : string)
  : bool :=
  match List.find (VALIDATE_TRUTH_BULLET_STR channel_id trigger) rows with
  | Some _ => true
  | None => false
  end.

(** [TruthBullet.save]: [update(where={"id": self.id}, data=model_dump())]
    writes every field of the record over the row of the same id; a record
    whose id is in no row changes nothing. *)
Definition save (self : t) (rows : list t) : list t :=
  map (fun row => if Z.eqb (id row) (id self) then self else row) rows.

(** The invariant of the data model, on one clue and on a table. *)
Definition finder_iff_found (c : t) : Prop :=
  is_Some (finder c) <-> found c = true.

(** What the claim on the substring search reads "matches" as: the
    trigger or an alias occurs in the text, letter case ignored. *)
Definition occurs_in (row : t) (text : string) : bool :=
  (ci_contains (trigger row) text
   || existsb (fun alias => ci_contains alias text) (aliases row))%bool.

Definition backslash_free (row : t) : Prop :=
  has_char backslash (trigger row) = false
  /\ forall alias, In alias (aliases row) -> has_char backslash alias = false.

(** The text is, as a whole and letter case ignored, the trigger or an
    alias of the row: the two have the same length and, position by
    position, the same character up to the case of a letter. *)
Definition names_exactly (row : t) (text : string) : Prop :=
  ci_same (trigger row) text = true
  \/ exists alias, In alias (aliases row) /\ ci_same alias text = true.

(** Two rows that differ at most in their discovery state. *)
Definition same_but_discovery (r r' : t) : Prop :=
  id r = id r' /\ channel_id r = channel_id r' /\ trigger r = trigger r'
  /\ aliases r = aliases r' /\ description r = description r'
  /\ hidden r = hidden r'.

(** A row before and after: it is the row of the same clue and has not
    gone from found to unfound; a found row is exactly as it was. *)
Definition keeps_found (r r' : t) : Prop :=
  id r = id r' /\ (found r = true -> found r' = true).

Definition keeps_found_row (r r' : t) : Prop := found r = true -> r' = r.

(** Runs of [save]: the registry's one write, any number of times, each
    saved record meeting [ok] on the table it is saved to. *)
Inductive saves (ok : t -> list t -> Prop) : list t -> list t -> Prop :=
| saves_done (rows : list t) : saves ok rows rows
| saves_more (rows rows' : list t) (self : t) :
    ok self rows -> saves ok (save self rows) rows' -> saves ok rows rows'.

(** What a caller of [save] can promise about the record it saves: the
    record has a finder exactly when it is found; it is not an unfound
    record over a found row; no row of its id is found yet. *)
Definition sound_record (self : t) (rows : list t) : Prop :=
  finder_iff_found self.

Definition not_unfinding (self : t) (rows : list t) : Prop :=
  forall r, In r rows -> id r = id self -> found r = true ->
            found self = true.

Definition unfound_yet (self : t) (rows : list t) : Prop :=
  forall r, In r rows -> id r = id self -> found r = false.

(** [TruthBullet.find_possible_bullet]: [find_first] with
    [{"equals": escape_ilike(trigger), "mode": "insensitive"}]. On
    PostgreSQL an insensitive [equals] is the comparison
    [trigger ILIKE value], which is what the escaping is for. A trigger
    that ends in a backslash gives a pattern the database refuses; that
    error is not modelled, the result is [None] there, and the properties
    below are stated for triggers without a backslash. *)
Definition find_possible_bullet (rows : list t) (channel_id : Z)
    (trigger : string) : option t :=
  List.find
    (fun row =>
       (Z.eqb (TruthBullet.channel_id row) channel_id
        && ILIKE (TruthBullet.trigger row) (escape_ilike trigger))%bool)
    rows.

End TruthBullet.


(** ** Outcomes of a command *)

Inductive error : Type :=
| RecordNotFoundError
| UniqueViolationError
| AttributeError
| CustomCheckFailure (msg : string)
| BadArgument (msg : string).

Inductive outcome (A : Type) : Type :=
| Return (a : A)
| Raise (e : error).

Arguments Return {A} a.
Arguments Raise {A} e.

(** Truth value of an [Optional[int]]: [None] and [0] are false. *)
Definition truthy (o : option Z) : bool :=
  match o with
  | Some n => negb (Z.eqb n 0)
  | None => false
  end.

(** ** Configuration resolver: [GuildConfigMixin], [GetMethodsMixin] *)

Module Models.

Inductive InvestigationType : Type :=
| DEFAULT
| COMMAND_ONLY.

Definition InvestigationType_value (t : InvestigationType) : Z :=
  match t with
  | DEFAULT => 1
  | COMMAND_ONLY => 2
  end.

(** [InvestigationType(mode)]; [None] is the [ValueError]. *)
Definition InvestigationType_of (mode : Z) : option InvestigationType :=
  if Z.eqb mode 1 then Some DEFAULT
  else if Z.eqb mode 2 then Some COMMAND_ONLY
  else None.

Definition is_command_only (t : InvestigationType) : bool :=
  match t with
  | COMMAND_ONLY => true
  | DEFAULT => false
  end.

(** The columns of each table besides its unique key [guild_id]; a model
    object is the key together with the columns. *)
Record NamesCols : Type := {
  singular_bullet : string;
  plural_bullet : string;
  singular_truth_bullet_finder : string;
  plural_truth_bullet_finder : string;
  best_bullet_finder : string;
  singular_currency_name : string;
  plural_currency_name : string
}.

Record Names : Type := {
  names_guild_id : Z;
  names_cols :> NamesCols
}.

Record BulletCols : Type := {
  bullet_chan_id : option Z;
  best_bullet_finder_role : option Z;
  bullets_enabled : bool;
  investigation_type : InvestigationType
}.

Record BulletConfig : Type := {
  bullets_guild_id : Z;
  bullets_cols :> BulletCols
}.

Record GachaCols : Type := {
  currency_cost : Z
}.

Record GachaConfig : Type := {
  gacha_guild_id : Z;
  gacha_cols :> GachaCols
}.

Record GuildCols : Type := {
  player_role : option Z
}.

(** The aggregate: the root record and the relations a query included. *)
Record GuildConfig : Type := {
  guild_id : Z;
  guild_cols :> GuildCols;
  names : option Names;
  bullets : option BulletConfig;
  gacha : option GachaConfig
}.

(** What the database schema, which is not among the Python files, gives a
    row created from [{"guild_id": ...}] alone. *)
Record Schema : Type := {
  default_guild : GuildCols;
  default_names : NamesCols;
  default_bullets : BulletCols;
  default_gacha : GachaCols
}.

(** A schema to run examples with. *)
Definition example_schema : Schema :=
  {| default_guild := {| player_role := None |};
     default_names :=
       {| singular_bullet := "Truth Bullet";
          plural_bullet := "Truth Bullets";
          singular_truth_bullet_finder := "{{bullet_name}} Finder";
          plural_truth_bullet_finder := "{{bullet_name}} Finders";
          best_bullet_finder := "Best {{bullet_finder}}";
          singular_currency_name := "Coin";
          plural_currency_name := "Coins" |};
     default_bullets :=
       {| bullet_chan_id := None;
          best_bullet_finder_role := None;
          bullets_enabled := false;
          investigation_type := DEFAULT |};
     default_gacha := {| currency_cost := 1 |} |}.

(** The four tables, each keyed by [guild_id]. *)
Record DB : Type := {
  tbl_guildconfig : gmap Z GuildCols;
  tbl_names : gmap Z NamesCols;
  tbl_bullets : gmap Z BulletCols;
  tbl_gacha : gmap Z GachaCols
}.

(** The keys of a [PrismaGuildConfigInclude]; an [include] is the list of
    the keys of the dictionary ([None] and [{}] are both the empty list). *)
Inductive entry : Type :=
| inc_names
| inc_bullets
| inc_gacha.

Definition entry_eqb (a b : entry) : bool :=
  match a, b with
  | inc_names, inc_names => true
  | inc_bullets, inc_bullets => true
  | inc_gacha, inc_gacha => true
  | _, _ => false
  end.

Definition includes (e : entry) (include : list entry) : bool :=
  existsb (entry_eqb e) include.

(** [prisma().find_unique(where={"guild_id": guild_id}, include=include)]:
    a relation that is not included is left at its default, [None]. *)
Definition find_unique (db : DB) (guild_id : Z) (include : list entry)
  : option GuildConfig :=
  match tbl_guildconfig db !! guild_id with
  | None => None
  | Some cols =>
      Some {| guild_id := guild_id;
              guild_cols := cols;
              names := if includes inc_names include
                       then Build_Names guild_id <$> tbl_names db !! guild_id
                       else None;
              bullets := if includes inc_bullets include
                         then Build_BulletConfig guild_id
                                <$> tbl_bullets db !! guild_id
                         else None;
              gacha := if includes inc_gacha include
                       then Build_GachaConfig guild_id
                              <$> tbl_gacha db !! guild_id
                       else None |}
  end.

(** [prisma().create(data={"guild_id": guild_id})] on the root table. *)
Definition create (schema : Schema) (db : DB) (guild_id : Z)
  : GuildConfig * DB :=
  ({| guild_id := guild_id; guild_cols := default_guild schema;
      names := None; bullets := None; gacha := None |},
   {| tbl_guildconfig := <[guild_id := default_guild schema]> (tbl_guildconfig db);
      tbl_names := tbl_names db;
      tbl_bullets := tbl_bullets db;
      tbl_gacha := tbl_gacha db |}).

(** A [PrismaGuildConfigUpdateInput] as [_fill_in_include] builds it: under
    each key, if present, [{"create": {"guild_id": g}}], kept as [Some g]. *)
Record UpdateInput : Type := {
  add_names : option Z;
  add_bullets : option Z;
  add_gacha : option Z
}.

Definition no_data : UpdateInput :=
  {| add_names := None; add_bullets := None; add_gacha := None |}.

(** Truth value of the dictionary: it has a key. *)
Definition has_data (d : UpdateInput) : bool :=
  (bool_decide (is_Some (add_names d))
   || bool_decide (is_Some (add_bullets d))
   || bool_decide (is_Some (add_gacha d)))%bool.

(** One nested create: the row of guild [g] is added with the schema's
    defaults; [None] is the unique-key violation when the guild has the row
    already. *)
Definition create_row {A : Type} (req : option Z) (default : A)
    (tbl : gmap Z A) : option (gmap Z A) :=
  match req with
  | None => Some tbl
  | Some g =>
      match tbl !! g with
      | None => Some (<[g := default]> tbl)
      | Some _ => None
      end
  end.

(** [prisma().update(where={"guild_id": g}, data=add_data, include=include)]:
    the nested creates, all or none, then the record read back with its
    relations; without a root record nothing is done and [None] comes
    back. *)
Definition update (schema : Schema) (db : DB) (guild_id : Z)
    (data : UpdateInput) (include : list entry)
  : outcome (option GuildConfig) * DB :=
  match tbl_guildconfig db !! guild_id with
  | None => (Return None, db)
  | Some _ =>
      match create_row (add_names data) (default_names schema) (tbl_names db),
            create_row (add_bullets data) (default_bullets schema) (tbl_bullets db),
            create_row (add_gacha data) (default_gacha schema) (tbl_gacha db)
      with
      | Some tn, Some tb, Some tg =>
          let db' :=
            {| tbl_guildconfig := tbl_guildconfig db;
               tbl_names := tn; tbl_bullets := tb; tbl_gacha := tg |} in
          (Return (find_unique db' guild_id include), db')
      | _, _, _ => (Raise UniqueViolationError, db)
      end
  end.

(** One turn of the loop [for entry in include]: [not getattr(self, k, True)]
    holds when the attribute is [None]. *)
Definition fill_entry (self : GuildConfig) (add_data : UpdateInput) (e : entry)
  : UpdateInput :=
  match e with
  | inc_names =>
      match names self with
      | None => {| add_names := Some (guild_id self);
                   add_bullets := add_bullets add_data;
                   add_gacha := add_gacha add_data |}
      | Some _ => add_data
      end
  | inc_bullets =>
      match bullets self with
      | None => {| add_names := add_names add_data;
                   add_bullets := Some (guild_id self);
                   add_gacha := add_gacha add_data |}
      | Some _ => add_data
      end
  | inc_gacha =>
      match gacha self with
      | None => {| add_names := add_names add_data;
                   add_bullets := add_bullets add_data;
                   add_gacha := Some (guild_id self) |}
      | Some _ => add_data
      end
  end.

(** [GuildConfigMixin._fill_in_include]. The record [update] returns is
    bound to [config]; the method returns [self]. *)
Definition _fill_in_include (schema : Schema) (self : GuildConfig)
    (include : list entry) (db : DB) : outcome GuildConfig * DB :=
  match include with
  | [] => (Return self, db)
  | _ :: _ =>
      let add_data := fold_left (fill_entry self) include no_data in
      if has_data add_data then
        match update schema db (guild_id self) add_data include with
        | (Return config, db') => (Return self, db')
        | (Raise e, db') => (Raise e, db')
        end
      else (Return self, db)
  end.

(** [GuildConfigMixin.get]. *)
Definition get (schema : Schema) (db : DB) (guild_id : Z)
    (include : list entry) : outcome GuildConfig * DB :=
  match find_unique db guild_id include with
  | None => (Raise RecordNotFoundError, db)
  | Some config => _fill_in_include schema config include db
  end.

(** [GuildConfigMixin.get_or_none]. *)
Definition get_or_none (schema : Schema) (db : DB) (guild_id : Z)
    (include : list entry) : outcome (option GuildConfig) * DB :=
  match find_unique db guild_id include with
  | None => (Return None, db)
  | Some config =>
      match _fill_in_include schema config include db with
      | (Return r, db') => (Return (Some r), db')
      | (Raise e, db') => (Raise e, db')
      end
  end.

(** [GuildConfigMixin.get_or_create]. *)
Definition get_or_create (schema : Schema) (db : DB) (guild_id : Z)
    (include : list entry) : outcome GuildConfig * DB :=
  let '(config, db1) :=
    match find_unique db guild_id include with
    | Some config => (config, db)
    | None => create schema db guild_id
    end in
  _fill_in_include schema config include db1.

(** The key an update input holds for an entry. *)
Definition requested (d : UpdateInput) (e : entry) : option Z :=
  match e with
  | inc_names => add_names d
  | inc_bullets => add_bullets d
  | inc_gacha => add_gacha d
  end.

(** Whether the aggregate holds the relation an entry names. *)
Definition populated (config : GuildConfig) (e : entry) : bool :=
  match e with
  | inc_names => bool_decide (is_Some (names config))
  | inc_bullets => bool_decide (is_Some (bullets config))
  | inc_gacha => bool_decide (is_Some (gacha config))
  end.

(** Whether the store holds the sub-config row of a guild. *)
Definition stored (db : DB) (guild_id : Z) (e : entry) : bool :=
  match e with
  | inc_names => bool_decide (is_Some (tbl_names db !! guild_id))
  | inc_bullets => bool_decide (is_Some (tbl_bullets db !! guild_id))
  | inc_gacha => bool_decide (is_Some (tbl_gacha db !! guild_id))
  end.

(** [GetMethodsMixin.get_or_none] at [BulletConfig]. *)
Definition BulletConfig_get_or_none (db : DB) (guild_id : Z)
  : option BulletConfig :=
  Build_BulletConfig guild_id <$> tbl_bullets db !! guild_id.

(** [GetMethodsMixin.get_or_create] at [BulletConfig]. *)
Definition BulletConfig_get_or_create (schema : Schema) (db : DB) (guild_id : Z)
  : BulletConfig * DB :=
  match BulletConfig_get_or_none db guild_id with
  | Some b => (b, db)
  | None =>
      (Build_BulletConfig guild_id (default_bullets schema),
       {| tbl_guildconfig := tbl_guildconfig db;
          tbl_names := tbl_names db;
          tbl_bullets := <[guild_id := default_bullets schema]> (tbl_bullets db);
          tbl_gacha := tbl_gacha db |})
  end.

(** [BulletConfig.save]: every column written over the row of
    [self.guild_id]; without such a row nothing is written. *)
Definition BulletConfig_save (self : BulletConfig) (db : DB) : DB :=
  match tbl_bullets db !! bullets_guild_id self with
  | None => db
  | Some _ =>
      {| tbl_guildconfig := tbl_guildconfig db;
         tbl_names := tbl_names db;
         tbl_bullets := <[bullets_guild_id self := bullets_cols self]> (tbl_bullets db);
         tbl_gacha := tbl_gacha db |}
  end.

(** [prisma().find_many(where={"bullets_enabled": True,
    "investigation_type": {"not": COMMAND_ONLY}})] on the bullet table. *)
Definition find_many_msg_enabled (db : DB) : list BulletConfig :=
  List.filter
    (fun m : BulletConfig =>
       (bullets_enabled m && negb (is_command_only (investigation_type m)))%bool)
    (uncurry Build_BulletConfig <$> map_to_list (tbl_bullets db)).

(** [GetMethodsMixin.get_or_none], [get_or_create] and the [save] of
    [Names] and [GachaConfig], as for [BulletConfig] above. *)
Definition Names_get_or_none (db : DB) (guild_id : Z) : option Names :=
  Build_Names guild_id <$> tbl_names db !! guild_id.

Definition Names_get_or_create (schema : Schema) (db : DB) (guild_id : Z)
  : Names * DB :=
  match Names_get_or_none db guild_id with
  | Some n => (n, db)
  | None =>
      (Build_Names guild_id (default_names schema),
       {| tbl_guildconfig := tbl_guildconfig db;
          tbl_names := <[guild_id := default_names schema]> (tbl_names db);
          tbl_bullets := tbl_bullets db;
          tbl_gacha := tbl_gacha db |})
  end.

Definition Names_save (self : Names) (db : DB) : DB :=
  match tbl_names db !! names_guild_id self with
  | None => db
  | Some _ =>
      {| tbl_guildconfig := tbl_guildconfig db;
         tbl_names := <[names_guild_id self := names_cols self]> (tbl_names db);
         tbl_bullets := tbl_bullets db;
         tbl_gacha := tbl_gacha db |}
  end.

(** [Names.currency_name]. *)
Definition currency_name (self : Names) (amount : Z) : string :=
  if Z.eqb amount 1 then singular_currency_name self
  else plural_currency_name self.

Definition GachaConfig_get_or_none (db : DB) (guild_id : Z)
  : option GachaConfig :=
  Build_GachaConfig guild_id <$> tbl_gacha db !! guild_id.

Definition GachaConfig_get_or_create (schema : Schema) (db : DB) (guild_id : Z)
  : GachaConfig * DB :=
  match GachaConfig_get_or_none db guild_id with
  | Some c => (c, db)
  | None =>
      (Build_GachaConfig guild_id (default_gacha schema),
       {| tbl_guildconfig := tbl_guildconfig db;
          tbl_names := tbl_names db;
          tbl_bullets := tbl_bullets db;
          tbl_gacha := <[guild_id := default_gacha schema]> (tbl_gacha db) |})
  end.

Definition GachaConfig_save (self : GachaConfig) (db : DB) : DB :=
  match tbl_gacha db !! gacha_guild_id self with
  | None => db
  | Some _ =>
      {| tbl_guildconfig := tbl_guildconfig db;
         tbl_names := tbl_names db;
         tbl_bullets := tbl_bullets db;
         tbl_gacha := <[gacha_guild_id self := gacha_cols self]> (tbl_gacha db) |}
  end.

(** A table after a fill-in for guild [g]: as before, or with the default
    row added for [g], which had none. *)
Definition grown_with {A : Type} (dflt : A) (g : Z) (tbl tbl' : gmap Z A)
  : Prop :=
  tbl' = tbl \/ (tbl !! g = None /\ tbl' = <[g := dflt]> tbl).

(** A row of a table is still there, unchanged. *)
Definition keeps_rows {A : Type} (tbl tbl' : gmap Z A) : Prop :=
  forall g x, tbl !! g = Some x -> tbl' !! g = Some x.

End Models.

(** ** Investigation settings: [BulletConfigCMDs] and the start-up loop *)

Module BulletConfigCMDs.
Import Models.

(** The bot: the store and the in-memory set of the guilds whose messages
    are searched for clues. *)
Record THIABase : Type := {
  db : DB;
  msg_enabled_bullets_guilds : gset Z
}.

(** Modelled from the spec: [ctx.fetch_config(include)], a method of the
    command context whose code is outside the files embedded here. The
    spec's words: "A configuration-scoped command -> Configuration
    Resolver.get_or_create -> adapter reads/writes fields -> save". *)
Definition fetch_config (schema : Schema) (db : DB) (guild_id : Z)
    (include : list entry) : outcome GuildConfig * DB :=
  get_or_create schema db guild_id include.

(** [BulletConfigCMDs.enable_check]. *)
Definition enable_check (config : GuildConfig) : outcome unit :=
  if negb (truthy (player_role config)) then
    Raise (CustomCheckFailure "You still need to set the Player role for this server!")
  else
    match bullets config with
    | None =>
        Raise (CustomCheckFailure "You still need to set an investigation channel!")
    | Some b =>
        if negb (truthy (bullet_chan_id b)) then
          Raise (CustomCheckFailure "You still need to set an investigation channel!")
        else Return tt
    end.

Definition with_investigation_type (b : BulletConfig) (t : InvestigationType)
  : BulletConfig :=
  {| bullets_guild_id := bullets_guild_id b;
     bullets_cols :=
       {| bullet_chan_id := bullet_chan_id b;
          best_bullet_finder_role := best_bullet_finder_role b;
          bullets_enabled := bullets_enabled b;
          investigation_type := t |} |}.

Definition with_bullets_enabled (b : BulletConfig) (toggle : bool)
  : BulletConfig :=
  {| bullets_guild_id := bullets_guild_id b;
     bullets_cols :=
       {| bullet_chan_id := bullet_chan_id b;
          best_bullet_finder_role := best_bullet_finder_role b;
          bullets_enabled := toggle;
          investigation_type := investigation_type b |} |}.

(** [BulletConfigCMDs.set_investigation_mode], [guild] being
    [ctx.guild_id]. *)
Definition set_investigation_mode (schema : Schema) (guild : Z) (mode : Z)
    (bot : THIABase) : outcome unit * THIABase :=
  match InvestigationType_of mode with
  | None => (Raise (BadArgument "Invalid investigation mode."), bot)
  | Some investigation_type =>
      let '(bullet_config, db1) :=
        BulletConfig_get_or_create schema (db bot) guild in
      let bullet_config :=
        with_investigation_type bullet_config investigation_type in
      let db2 := BulletConfig_save bullet_config db1 in
      let guilds :=
        if is_command_only investigation_type then
          msg_enabled_bullets_guilds bot ∖ {[guild]}
        else if bullets_enabled bullet_config then
          {[guild]} ∪ msg_enabled_bullets_guilds bot
        else msg_enabled_bullets_guilds bot in
      (Return tt, {| db := db2; msg_enabled_bullets_guilds := guilds |})
  end.

(** [BulletConfigCMDs.toggle_bullets]. Reading [config.bullets] when it is
    [None] raises [AttributeError]; by then [fetch_config] has run. *)
Definition toggle_bullets (schema : Schema) (guild : Z) (toggle : bool)
    (bot : THIABase) : outcome unit * THIABase :=
  let '(fetched, db1) := fetch_config schema (db bot) guild [inc_bullets] in
  let stopped (e : error) :=
    (Raise e,
     {| db := db1;
        msg_enabled_bullets_guilds := msg_enabled_bullets_guilds bot |}) in
  match fetched with
  | Raise e => stopped e
  | Return config =>
      match bullets config with
      | None => stopped AttributeError
      | Some b =>
          match (if (negb (bullets_enabled b) && toggle)%bool
                 then enable_check config else Return tt) with
          | Raise e => stopped e
          | Return _ =>
              let b := with_bullets_enabled b toggle in
              let db2 := BulletConfig_save b db1 in
              let guilds :=
                if negb (is_command_only (investigation_type b)) then
                  if toggle then {[guild]} ∪ msg_enabled_bullets_guilds bot
                  else msg_enabled_bullets_guilds bot ∖ {[guild]}
                else msg_enabled_bullets_guilds bot in
              (Return tt, {| db := db2; msg_enabled_bullets_guilds := guilds |})
          end
      end
  end.

(** The loop of [start] in main.py, over the empty set the module creates. *)
Definition start (db0 : DB) : THIABase :=
  {| db := db0;
     msg_enabled_bullets_guilds :=
       fold_left (fun acc model => {[bullets_guild_id model]} ∪ acc)
         (find_many_msg_enabled db0) ∅ |}.

(** A guild is in the set only if its bullet configuration is enabled and
    not command-only. *)
Definition msg_enabled_inv (bot : THIABase) : Prop :=
  forall g : Z,
    g ∈ msg_enabled_bullets_guilds bot ->
    exists b : BulletCols,
      tbl_bullets (db bot) !! g = Some b
      /\ bullets_enabled b = true
      /\ investigation_type b <> COMMAND_ONLY.

(** The operations the invariant is stated for. *)
Inductive command : Type :=
| cmd_set_investigation_mode (guild : Z) (mode : Z)
| cmd_toggle_bullets (guild : Z) (toggle : bool).

Definition run (schema : Schema) (c : command) (bot : THIABase) : THIABase :=
  match c with
  | cmd_set_investigation_mode guild mode =>
      snd (set_investigation_mode schema guild mode bot)
  | cmd_toggle_bullets guild toggle =>
      snd (toggle_bullets schema guild toggle bot)
  end.

(** How a fill-in can change the bullet table: not at all, or by the
    default row of a guild that had none. *)
Definition grown_at (schema : Schema) (g : Z) (tbl tbl' : gmap Z BulletCols)
  : Prop :=
  tbl' = tbl
  \/ (tbl !! g = None /\ tbl' = <[g := default_bullets schema]> tbl).

(** A guild text channel as a command receives it: its id, and whether it
    is a channel one can send to ([isinstance(channel, SendMixin)]). *)
Record GuildText : Type := {
  channel_id : Z;
  is_send_mixin : bool
}.

Definition with_bullet_chan_id (b : BulletConfig) (chan : option Z)
  : BulletConfig :=
  {| bullets_guild_id := bullets_guild_id b;
     bullets_cols :=
       {| bullet_chan_id := chan;
          best_bullet_finder_role := best_bullet_finder_role b;
          bullets_enabled := bullets_enabled b;
          investigation_type := investigation_type b |} |}.

Definition with_best_bullet_finder_role (b : BulletConfig) (role : option Z)
  : BulletConfig :=
  {| bullets_guild_id := bullets_guild_id b;
     bullets_cols :=
       {| bullet_chan_id := bullet_chan_id b;
          best_bullet_finder_role := role;
          bullets_enabled := bullets_enabled b;
          investigation_type := investigation_type b |} |}.

(** [BulletConfigCMDs.set_bullet_channel]. A channel object is true, so
    [bool(channel)] is whether one was given. *)
Definition set_bullet_channel (schema : Schema) (guild : Z)
    (channel : option GuildText) (unset : bool) (bot : THIABase)
  : outcome unit * THIABase :=
  if negb (xorb (bool_decide (is_Some channel)) unset) then
    (Raise (BadArgument "You must set a Truth Bullet channel or specify to unset it."),
     bot)
  else if match channel with
          | Some c => negb (is_send_mixin c)
          | None => false
          end then
    (Raise (BadArgument "The channel must be a text channel."), bot)
  else
    let '(bullet_config, db1) :=
      BulletConfig_get_or_create schema (db bot) guild in
    let bullet_config :=
      with_bullet_chan_id bullet_config (channel_id <$> channel) in
    (Return tt,
     {| db := BulletConfig_save bullet_config db1;
        msg_enabled_bullets_guilds := msg_enabled_bullets_guilds bot |}).

(** [BulletConfigCMDs.set_best_truth_bullet_finder_role], [role] being the
    id of the role the converter accepted. *)
Definition set_best_truth_bullet_finder_role (schema : Schema) (guild : Z)
    (role : option Z) (unset : bool) (bot : THIABase)
  : outcome unit * THIABase :=
  if negb (xorb (bool_decide (is_Some role)) unset) then
    (Raise (BadArgument "You must either specify a role or specify to unset the role."),
     bot)
  else
    let '(bullet_config, db1) :=
      BulletConfig_get_or_create schema (db bot) guild in
    let bullet_config := with_best_bullet_finder_role bullet_config role in
    (Return tt,
     {| db := BulletConfig_save bullet_config db1;
        msg_enabled_bullets_guilds := msg_enabled_bullets_guilds bot |}).

(** A row whose guild's messages are to be searched. *)
Definition msg_enabled (b : BulletCols) : bool :=
  (bullets_enabled b && negb (is_command_only (investigation_type b)))%bool.

(** The set holds exactly the guilds whose bullet configuration is enabled
    and not command-only. *)
Definition msg_enabled_exact (bot : THIABase) : Prop :=
  forall g : Z,
    g ∈ msg_enabled_bullets_guilds bot
    <-> exists b : BulletCols,
          tbl_bullets (db bot) !! g = Some b /\ msg_enabled b = true.

(** The four commands that write a bullet configuration. *)
Inductive config_command : Type :=
| cfg_mode (guild : Z) (mode : Z)
| cfg_toggle (guild : Z) (toggle : bool)
| cfg_channel (guild : Z) (channel : option GuildText) (unset : bool)
| cfg_best_finder (guild : Z) (role : option Z) (unset : bool).

Definition run_config (schema : Schema) (c : config_command) (bot : THIABase)
  : THIABase :=
  match c with
  | cfg_mode guild mode => snd (set_investigation_mode schema guild mode bot)
  | cfg_toggle guild toggle => snd (toggle_bullets schema guild toggle bot)
  | cfg_channel guild channel unset =>
      snd (set_bullet_channel schema guild channel unset bot)
  | cfg_best_finder guild role unset =>
      snd (set_best_truth_bullet_finder_role schema guild role unset bot)
  end.

(** The three checks of [BulletConfigCMDs.bullet_finders_edit], between
    its reading of the configuration and its writing of the names: a field
    in which the pattern is found must have the allowed variable as the
    group. *)
Definition placeholder_ok (allowed field : string) : bool :=
  match Text.TEMPLATE_MARKDOWN_search field with
  | Some var_name => String.eqb var_name allowed
  | None => true
  end.

Definition bullet_finders_edit_checks (singular_truth_bullet_finder
    plural_truth_bullet_finder best_bullet_finder : string) : outcome unit :=
  if negb (placeholder_ok "bullet_name" singular_truth_bullet_finder) then
    Raise (BadArgument "Invalid variable name in Singular Truth Bullet Finder. Only `{{bullet_name}}`, the Truth Bullet name, is allowed.")
  else if negb (placeholder_ok "bullet_name" plural_truth_bullet_finder) then
    Raise (BadArgument "Invalid variable name in Plural Truth Bullet Finder. Only `{{bullet_name}}`, the Truth Bullet name, is allowed.")
  else if negb (placeholder_ok "bullet_finder" best_bullet_finder) then
    Raise (BadArgument "Invalid variable name in Best Truth Bullet Finder. Only `{{bullet_finder}}`, the Truth Bullet Finder name, is allowed.")
  else Return tt.

End BulletConfigCMDs.

(** ** Currency ledger and item catalogue: [GachaManagement] *)

Module GachaManagement.
Import Models.

(** The key of a player's row, [f"{guild_id}-{user_id}"]. *)
Definition user_guild_id (guild_id user_id : Z) : string :=
  pretty guild_id +:+ "-" +:+ pretty user_id.

(** Atomic number operations of an update. *)
Inductive number_op : Type :=
| increment (n : Z)
| decrement (n : Z).

Definition apply_op (op : number_op) (current : Z) : Z :=
  match op with
  | increment n => current + n
  | decrement n => current - n
  end.

(** [prisma().upsert(where={"user_guild_id": key}, data={"create": ...,
    "update": ...})] on the player table, a map from the key to
    [currency_amount]; the result is the row's new amount and the table. *)
Definition upsert (key : string) (create : Z) (update : number_op)
    (players : gmap string Z) : Z * gmap string Z :=
  match players !! key with
  | None => (create, <[key := create]> players)
  | Some current =>
      (apply_op update current, <[key := apply_op update current]> players)
  end.

(** The upsert of [gacha_give]. *)
Definition grant (guild_id user_id amount : Z) (players : gmap string Z)
  : Z * gmap string Z :=
  upsert (user_guild_id guild_id user_id) amount (increment amount) players.

(** The upsert of [gacha_remove]. *)
Definition debit (guild_id user_id amount : Z) (players : gmap string Z)
  : Z * gmap string Z :=
  upsert (user_guild_id guild_id user_id) amount (decrement amount) players.

(** The [update_many] of [gacha_reset_currency]: the rows with the key and
    [currency_amount > 0] are set to 0; the result is their number. *)
Definition reset_if_positive (guild_id user_id : Z) (players : gmap string Z)
  : Z * gmap string Z :=
  match players !! user_guild_id guild_id user_id with
  | Some current =>
      if Z.ltb 0 current
      then (1, <[user_guild_id guild_id user_id := 0]> players)
      else (0, players)
  | None => (0, players)
  end.

Record Member : Type := {
  member_id : Z;
  member_roles : list Z
}.

Definition has_role (user : Member) (role : option Z) : bool :=
  match role with
  | Some r => existsb (Z.eqb r) (member_roles user)
  | None => false
  end.

(** The two checks every currency command starts with. *)
Definition player_checks (config : GuildConfig) (user : Member) (verb : string)
  : outcome unit :=
  if negb (truthy (player_role config)) then
    Raise (CustomCheckFailure "Player role not set.")
  else if negb (has_role user (player_role config)) then
    Raise (BadArgument ("The user must have the Player role to " +:+ verb +:+ "."))
  else Return tt.

(** The reply of [gacha_give] and [gacha_remove] reads
    [config.names.currency_name]; [config] is what
    [ctx.fetch_config({"names": True})] returned. *)
Definition reply_total (config : GuildConfig) (total : Z) : outcome Z :=
  match names config with
  | None => Raise AttributeError
  | Some _ => Return total
  end.

(** [GachaManagement.gacha_give]. *)
Definition gacha_give (config : GuildConfig) (guild_id : Z) (user : Member)
    (amount : Z) (players : gmap string Z) : outcome Z * gmap string Z :=
  match player_checks config user "receive currency" with
  | Raise e => (Raise e, players)
  | Return _ =>
      let '(total, players') := grant guild_id (member_id user) amount players in
      (reply_total config total, players')
  end.

(** [GachaManagement.gacha_remove]. *)
Definition gacha_remove (config : GuildConfig) (guild_id : Z) (user : Member)
    (amount : Z) (players : gmap string Z) : outcome Z * gmap string Z :=
  match player_checks config user "remove currency" with
  | Raise e => (Raise e, players)
  | Return _ =>
      let '(total, players') := debit guild_id (member_id user) amount players in
      (reply_total config total, players')
  end.

(** [GachaManagement.gacha_reset_currency]. *)
Definition gacha_reset_currency (config : GuildConfig) (guild_id : Z)
    (user : Member) (players : gmap string Z) : outcome unit * gmap string Z :=
  match player_checks config user "reset currency" with
  | Raise e => (Raise e, players)
  | Return _ =>
      let '(amount, players') :=
        reset_if_positive guild_id (member_id user) players in
      if Z.eqb amount 0
      then (Raise (BadArgument "The user has no currency to reset."), players')
      else (Return tt, players')
  end.

(** A row of the item table, as [add_gacha_item_modal] creates it. *)
Record GachaItem : Type := {
  item_guild_id : Z;
  name : string;
  description : string;
  amount : Z;
  image : option string
}.

(** The fields of the submitted form; a field left out is [None]. *)
Record ModalKwargs : Type := {
  item_name : string;
  item_description : string;
  item_amount : option string;
  item_image : option string
}.

(** [prisma().count(where={"guild_id": guild_id, "name": name})]. *)
Definition count (guild_id : Z) (n : string) (items : list GachaItem) : Z :=
  Z.of_nat
    (length
       (List.filter
          (fun it => (Z.eqb (item_guild_id it) guild_id && String.eqb (name it) n)%bool)
          items)).

Definition duplicate_name : error :=
  BadArgument "An item with that name already exists.".

Definition invalid_amount : error :=
  BadArgument "Amount must be a positive number.".

(** [GachaManagement.add_gacha_item_modal]. [int] is Python's [int] on a
    string, [None] being its [ValueError]. *)
Definition add_gacha_item_modal (int : string -> option Z) (guild_id : Z)
    (kwargs : ModalKwargs) (items : list GachaItem)
  : outcome unit * list GachaItem :=
  let str_amount := default "-1" (item_amount kwargs) in
  if Z.ltb 0 (count guild_id (item_name kwargs) items) then
    (Raise duplicate_name, items)
  else
    match int str_amount with
    | None => (Raise invalid_amount, items)
    | Some amount =>
        if Z.ltb amount (-1) then (Raise invalid_amount, items)
        else
          (Return tt,
           items ++ [ {| item_guild_id := guild_id;
                         name := item_name kwargs;
                         description := item_description kwargs;
                         amount := amount;
                         image := item_image kwargs |} ])
    end.

(** An item of the community with the name. *)
Definition named_in (g : Z) (n : string) (items : list GachaItem) : Prop :=
  exists it, In it items /\ item_guild_id it = g /\ name it = n.

(** [short_desc]. *)
Definition short_desc (description : string) : string :=
  if Nat.ltb 25 (String.length description)
  then substring 0 22 description +:+ "..."
  else description.

(** [GachaManagement.gacha_give_all]. [actual_role] is what
    [ctx.guild.fetch_role(config.player_role)] returned, as the list of the
    role's members; the batch commits its upserts in the order of the
    loop. *)
Definition gacha_give_all (config : GuildConfig) (guild_id : Z)
    (actual_role : option (list Member)) (amount : Z)
    (players : gmap string Z) : outcome unit * gmap string Z :=
  if negb (truthy (player_role config)) then
    (Raise (CustomCheckFailure "Player role not set."), players)
  else
    match actual_role with
    | None => (Raise (CustomCheckFailure "The Player role was not found."), players)
    | Some members =>
        let players' :=
          fold_left
            (fun batch member =>
               snd (grant guild_id (member_id member) amount batch))
            members players in
        match names config with
        | None => (Raise AttributeError, players')
        | Some _ => (Return tt, players')
        end
    end.

(** [GachaManagement.currency_names_edit]. *)
Definition currency_names_edit (schema : Schema) (guild_id : Z)
    (singular plural : string) (db : DB) : Names * DB :=
  let '(names, db1) := Names_get_or_create schema db guild_id in
  let names :=
    {| names_guild_id := names_guild_id names;
       names_cols :=
         {| singular_bullet := singular_bullet names;
            plural_bullet := plural_bullet names;
            singular_truth_bullet_finder := singular_truth_bullet_finder names;
            plural_truth_bullet_finder := plural_truth_bullet_finder names;
            best_bullet_finder := best_bullet_finder names;
            singular_currency_name := singular;
            plural_currency_name := plural |} |} in
  (names, Names_save names db1).

(** [GachaManagement.gacha_cost]. *)
Definition gacha_cost (schema : Schema) (guild_id : Z) (cost : Z) (db : DB)
  : DB :=
  let '(config, db1) := GachaConfig_get_or_create schema db guild_id in
  let config :=
    {| gacha_guild_id := gacha_guild_id config;
       gacha_cols := {| currency_cost := cost |} |} in
  GachaConfig_save config db1.

(** [prisma().delete_many(where={"guild_id": guild_id, "name": name})]: the
    number of rows deleted, and the rows left. *)
Definition delete_many (guild_id : Z) (n : string) (items : list GachaItem)
  : Z * list GachaItem :=
  (count guild_id n items,
   List.filter
     (fun it => negb (Z.eqb (item_guild_id it) guild_id && String.eqb (name it) n))
     items).

(** [GachaManagement.gacha_item_remove]. *)
Definition gacha_item_remove (guild_id : Z) (n : string)
    (items : list GachaItem) : outcome unit * list GachaItem :=
  let '(amount, items') := delete_many guild_id n items in
  if Z.leb amount 0
  then (Raise (BadArgument "No item with that name exists."), items')
  else (Return tt, items').

(** A string of decimal digits. *)
Definition is_digit (c : ascii) : bool :=
  let n := nat_of_ascii c in (Nat.leb 48 n && Nat.leb n 57)%bool.

Fixpoint all_digits (s : string) : bool :=
  match s with
  | EmptyString => true
  | String c s' => (is_digit c && all_digits s')%bool
  end.

(** [sep.join(lines)]. *)
Fixpoint join (sep : string) (lines : list string) : string :=
  match lines with
  | [] => EmptyString
  | [line] => line
  | line :: rest => line +:+ sep +:+ join sep rest
  end.

Definition newline : string := String (ascii_of_nat 10) EmptyString.

(** [range(0, stop, step)] for a positive step. *)
Definition range_step (stop step : nat) : list nat :=
  (fun k => k * step)%nat <$> seq 0 ((stop + step - 1) / step).

(** [[l[x : x + 30] for x in range(0, len(l), 30)]]. *)
Definition chunks {A : Type} (l : list A) : list (list A) :=
  (fun x => take 30 (drop x l)) <$> range_step (length l) 30.

(** One line of [gacha_view_items]; the stock is shown when [i.amount] is
    true, that is, not 0. *)
Definition item_line (i : GachaItem) : string :=
  "**" +:+ name i +:+ "**"
  +:+ (if Z.eqb (amount i) 0 then EmptyString
       else " (" +:+ pretty (amount i) +:+ " remaining)")
  +:+ ": " +:+ short_desc (description i).

(** [prisma().find_many(where={"guild_id": guild_id})] on the items. *)
Definition find_many_items (guild_id : Z) (items : list GachaItem)
  : list GachaItem :=
  List.filter (fun it => Z.eqb (item_guild_id it) guild_id) items.

(** [GachaManagement.gacha_view_items]: the descriptions of the embeds it
    sends, one per page. *)
Definition gacha_view_items (guild_id : Z) (items : list GachaItem)
  : outcome (list string) :=
  match find_many_items guild_id items with
  | [] => Raise (CustomCheckFailure "This server has no items to show.")
  | found =>
      let items_list := item_line <$> found in
      if Nat.ltb 30 (length items_list)
      then Return (join newline <$> chunks items_list)
      else Return [join newline items_list]
  end.

End GachaManagement.

(** * Properties *)

(** ** LIKE patterns built from escaped text *)

Section LikeFacts.
Import Text.

Lemma like_toks_anyseq (ci : bool) (ts : list like_tok) (s : string) :
  like_toks ci (AnySeq :: ts) s
  = (like_toks ci ts s
     || match s with
        | EmptyString => false
        | String _ s' => like_toks ci (AnySeq :: ts) s'
        end)%bool.
Proof. destruct s; reflexivity. Qed.

Lemma like_toks_anyseq_all (ci : bool) (s : string) :
  like_toks ci [AnySeq] s = true.
Proof.
  induction s as [|c s IH].
  - reflexivity.
  - rewrite like_toks_anyseq, IH. apply orb_true_r.
Qed.

Lemma like_toks_lits_prefix (t s : string) :
  like_toks true (lits t ++ [AnySeq]) s = ci_prefix t s.
Proof.
  revert s. induction t as [|c t IH]; intros s.
  - apply like_toks_anyseq_all.
  - destruct s as [|d s]; [reflexivity|].
    cbn [lits app like_toks ci_prefix]. now rewrite IH.
Qed.

Lemma like_toks_contains (t s : string) :
  like_toks true (AnySeq :: lits t ++ [AnySeq]) s = ci_contains t s.
Proof.
  induction s as [|d s IH].
  - rewrite like_toks_anyseq, like_toks_lits_prefix.
    destruct t; reflexivity.
  - rewrite like_toks_anyseq, like_toks_lits_prefix, IH.
    destruct t; reflexivity.
Qed.

Lemma re_sub_escape_chars (s : string) :
  re_sub ILIKE_ESCAPE escape_template s
  = match s with
    | EmptyString => EmptyString
    | String c s' => escape_char c +:+ re_sub ILIKE_ESCAPE escape_template s'
    end.
Proof.
  destruct s as [|c s]; [reflexivity|].
  cbn [re_sub]. unfold escape_char.
  destruct (ILIKE_ESCAPE c); reflexivity.
Qed.

Lemma append_nil (s : string) : EmptyString +:+ s = s.
Proof. reflexivity. Qed.

Lemma append_cons (c : ascii) (a b : string) :
  String c a +:+ b = String c (a +:+ b).
Proof. reflexivity. Qed.

Lemma fmap_cons_app (d : like_tok) (l : list like_tok)
    (o : option (list like_tok)) :
  cons d <$> (app l <$> o) = app (d :: l) <$> o.
Proof. now destruct o. Qed.

Lemma like_lex_cons (c : ascii) (p' : string) :
  like_lex (String c p')
  = if Ascii.eqb c backslash then
      match p' with
      | EmptyString => None
      | String d p'' => cons (Lit d) <$> like_lex p''
      end
    else if Ascii.eqb c percent then cons AnySeq <$> like_lex p'
    else if Ascii.eqb c underscore then cons AnyChar <$> like_lex p'
    else cons (Lit c) <$> like_lex p'.
Proof. reflexivity. Qed.

Lemma like_lex_escaped (t rest : string) :
  has_char backslash t = false ->
  like_lex (generate_regexp t +:+ rest) = (app (lits t)) <$> like_lex rest.
Proof.
  unfold generate_regexp.
  induction t as [|c t IH]; intros Hfree.
  - rewrite append_nil. now destruct (like_lex rest).
  - cbn [has_char] in Hfree. apply orb_false_elim in Hfree as [Hc Ht].
    specialize (IH Ht).
    rewrite Ascii.eqb_sym in Hc.
    cbn [re_sub lits].
    destruct (ILIKE_ESCAPE c) eqn:Hw.
    + cbn [expand escape_template]. rewrite !append_cons, append_nil.
      rewrite like_lex_cons, Ascii.eqb_refl, IH. apply fmap_cons_app.
    + unfold ILIKE_ESCAPE in Hw. apply orb_false_elim in Hw as [Hp Hu].
      rewrite append_cons, like_lex_cons, Hc, Hp, Hu, IH.
      apply fmap_cons_app.
Qed.

Lemma like_lex_ends_percent (x : string) :
  is_Some (like_lex (x +:+ "%"))
  /\ forall c, is_Some (like_lex (String c x +:+ "%")).
Proof.
  induction x as [|d x [IH1 IH2]].
  - split; [now eexists|].
    intros c. rewrite append_cons, append_nil. cbn.
    destruct (Ascii.eqb c backslash), (Ascii.eqb c percent),
      (Ascii.eqb c underscore); now eexists.
  - split; [apply IH2|].
    intros c. rewrite !append_cons, like_lex_cons.
    destruct (Ascii.eqb c backslash).
    + destruct IH1 as [ts Hts]. rewrite Hts. now eexists.
    + specialize (IH2 d) as [ts Hts]. rewrite append_cons in Hts.
      destruct (Ascii.eqb c percent), (Ascii.eqb c underscore);
        rewrite Hts; now eexists.
Qed.

(** The patterns the substring query builds are never ill-formed. *)
Lemma like_lex_concat (x : string) :
  is_Some (like_lex (CONCAT "%" x "%")).
Proof.
  unfold CONCAT. rewrite append_cons, append_nil, like_lex_cons.
  change (Ascii.eqb "%" backslash) with false.
  change (Ascii.eqb "%" percent) with true. cbn iota.
  destruct (proj1 (like_lex_ends_percent x)) as [ts Hts].
  rewrite Hts. now eexists.
Qed.

(** On a phrase without a backslash the substring predicate of the query is
    occurrence in the text, letter case ignored. *)
Lemma ILIKE_contains (text t : string) :
  has_char backslash t = false ->
  ILIKE text (CONCAT "%" (generate_regexp t) "%") = ci_contains t text.
Proof.
  intros Hfree. unfold ILIKE, CONCAT.
  rewrite append_cons, append_nil, like_lex_cons.
  change (Ascii.eqb "%" backslash) with false.
  change (Ascii.eqb "%" percent) with true. cbn iota.
  rewrite (like_lex_escaped t "%" Hfree). cbn.
  apply like_toks_contains.
Qed.

Lemma ascii_upper_lower (c : ascii) : ascii_upper (ascii_lower c) = ascii_upper c.
Proof. destruct c as [[] [] [] [] [] [] [] []]; reflexivity. Qed.

Lemma ascii_lower_upper (c : ascii) : ascii_lower (ascii_upper c) = ascii_lower c.
Proof. destruct c as [[] [] [] [] [] [] [] []]; reflexivity. Qed.

Lemma chr_eq_upper (c d : ascii) :
  chr_eq true c d = Ascii.eqb (ascii_upper d) (ascii_upper c).
Proof.
  unfold chr_eq.
  destruct (Ascii.eqb (ascii_lower c) (ascii_lower d)) eqn:E.
  - apply Ascii.eqb_eq in E. symmetry. apply Ascii.eqb_eq.
    rewrite <- (ascii_upper_lower c), <- (ascii_upper_lower d). now rewrite E.
  - apply Ascii.eqb_neq in E. symmetry. apply Ascii.eqb_neq. intros H.
    apply E. rewrite <- (ascii_lower_upper c), <- (ascii_lower_upper d).
    now rewrite H.
Qed.

Lemma ci_same_equal (a b : string) : ci_same a b = ci_equal b a.
Proof.
  unfold ci_equal. revert b.
  induction a as [|c a IH]; intros [|d b]; try reflexivity.
  cbn [ci_same UPPER String.eqb]. rewrite chr_eq_upper, IH.
  now destruct (Ascii.eqb (ascii_upper d) (ascii_upper c)).
Qed.

End LikeFacts.

(** ** The clue registry *)

Section Registry.
Import Text TruthBullet.

Lemma FIND_TRUTH_BULLET_STR_true (ch : Z) (text : string) (row : t) :
  FIND_TRUTH_BULLET_STR ch text row = true ->
  channel_id row = ch /\ found row = false
  /\ (ILIKE text (CONCAT "%" (generate_regexp (trigger row)) "%") = true
      \/ exists alias, In alias (aliases row)
           /\ ILIKE text (CONCAT "%" (generate_regexp alias) "%") = true).
Proof.
  unfold FIND_TRUTH_BULLET_STR. intros H.
  apply andb_prop in H as [H Hm]. apply andb_prop in H as [Hc Hf].
  apply Z.eqb_eq in Hc. apply Bool.eqb_prop in Hf.
  repeat split; try assumption.
  apply orb_prop in Hm as [Hm|Hm]; [now left|right].
  now apply existsb_exists in Hm.
Qed.

(** What the substring search returns is a row of the channel that is not
    found yet and that the query's predicate accepts; when neither its
    trigger nor its aliases hold a backslash, the trigger or an alias occurs
    in the text. *)
Lemma find_returns_unfound (rows : list t) (ch : Z) (text : string) (c : t) :
  find rows ch text = Some c ->
  In c rows /\ channel_id c = ch /\ found c = false
  /\ (backslash_free c -> occurs_in c text = true).
Proof.
  unfold find, query_first. intros H.
  apply List.find_some in H as [Hin Hw].
  apply FIND_TRUTH_BULLET_STR_true in Hw as (Hc & Hf & Hm).
  repeat split; try assumption.
  intros [Ht Ha]. unfold occurs_in. apply orb_true_iff.
  destruct Hm as [Hm|(alias & Hin' & Hm)].
  - left. now rewrite <- (ILIKE_contains text _ Ht).
  - right. apply existsb_exists. exists alias. split; [assumption|].
    now rewrite <- (ILIKE_contains text _ (Ha alias Hin')).
Qed.

(** The search returns nothing exactly when the predicate accepts no row;
    in particular when no unfound clue of the channel matches. *)
Lemma find_none_iff (rows : list t) (ch : Z) (text : string) :
  find rows ch text = None
  <-> forall c, In c rows -> FIND_TRUTH_BULLET_STR ch text c = false.
Proof.
  unfold find, query_first. split.
  - intros H c Hin. now apply (List.find_none _ _ H).
  - intros H. destruct (List.find _ rows) as [c|] eqn:E; [|reflexivity].
    apply List.find_some in E as [Hin Hw]. rewrite (H c Hin) in Hw.
    discriminate.
Qed.

(** C1, at a trigger that holds a backslash. The clue's trigger is the
    three characters [a], backslash, [b]; the text is [ab]. The query
    escapes the percent sign and the underscore of the trigger but not the
    backslash, so the pattern reads the backslash as the escape of [b]: the
    unfound clue of the channel is returned although neither its trigger nor
    an alias occurs in the text. *)
Theorem find_backslash_trigger :
  let clue := TruthBullet.mk 1 10 "a\b" [] "A torn page." false false None in
  find [clue] 10 "ab" = Some clue
  /\ occurs_in clue "ab" = false
  /\ generate_regexp (trigger clue) = "a\b"
  /\ like_lex (CONCAT "%" (generate_regexp (trigger clue)) "%")
     = Some [AnySeq; Lit "a"; Lit "b"; AnySeq].
Proof. cbv zeta. repeat split; vm_compute; reflexivity. Qed.

(** [escape_ilike] goes through the text one character at a time: a percent
    sign or an underscore gets a backslash before it, any other character
    is copied. *)
Lemma escape_ilike_chars (value : string) :
  escape_ilike value
  = match value with
    | EmptyString => EmptyString
    | String c s => escape_char c +:+ escape_ilike s
    end.
Proof. apply re_sub_escape_chars. Qed.

(** As a LIKE pattern, the escaped form of a text without a backslash is
    that text, character for character. *)
Lemma escape_ilike_literal (value : string) :
  has_char backslash value = false ->
  like_lex (escape_ilike value) = Some (lits value).
Proof.
  intros Hfree.
  pose proof (like_lex_escaped value EmptyString Hfree) as H.
  unfold generate_regexp in H. unfold escape_ilike.
  replace (re_sub ILIKE_ESCAPE escape_template value +:+ EmptyString)
    with (re_sub ILIKE_ESCAPE escape_template value) in H.
  - rewrite H. cbn. now rewrite app_nil_r.
  - generalize (re_sub ILIKE_ESCAPE escape_template value).
    intros s. induction s as [|c s IH]; [reflexivity|].
    rewrite append_cons. now f_equal.
Qed.

(** C6, at a trigger with a backslash before its percent sign. The trigger
    is [a], backslash, percent, [b]. Escaping puts a backslash before the
    percent sign and leaves the trigger's own backslash alone; in the
    pattern the two backslashes read as one literal backslash and the
    percent sign after them is a wildcard again. The search then returns
    the clue for a text that holds no percent sign at all. *)
Theorem escape_backslash_percent :
  let clue := TruthBullet.mk 1 10 "a\%b" [] "A torn page." false false None in
  escape_ilike "a\%b" = "a\\%b"
  /\ generate_regexp (trigger clue) = "a\\%b"
  /\ like_lex (escape_ilike "a\%b")
     = Some [Lit "a"; Lit backslash; AnySeq; Lit "b"]
  /\ find [clue] 10 "a\XYb" = Some clue
  /\ has_char percent "a\XYb" = false
  /\ occurs_in clue "a\XYb" = false.
Proof. cbv zeta. repeat split; vm_compute; reflexivity. Qed.

Lemma exact_queries_agree (ch : Z) (text : string) (row : t) :
  VALIDATE_TRUTH_BULLET_STR ch text row
  = FIND_TRUTH_BULLET_EXACT_STR ch text row.
Proof. reflexivity. Qed.

Lemma UPPER_eqb_ci_same (text name : string) :
  String.eqb (UPPER text) (UPPER name) = ci_same name text.
Proof. symmetry. apply ci_same_equal. Qed.

Lemma FIND_TRUTH_BULLET_EXACT_STR_iff (ch : Z) (text : string) (row : t) :
  FIND_TRUTH_BULLET_EXACT_STR ch text row = true
  <-> channel_id row = ch /\ names_exactly row text.
Proof.
  unfold FIND_TRUTH_BULLET_EXACT_STR, names_exactly.
  rewrite andb_true_iff, orb_true_iff, Z.eqb_eq, existsb_exists.
  rewrite UPPER_eqb_ci_same.
  split.
  - intros [Hc [Ht|(alias & Hin & Ha)]]; (split; [exact Hc|]).
    + now left.
    + right. exists alias. rewrite UPPER_eqb_ci_same in Ha. now split.
  - intros [Hc [Ht|(alias & Hin & Ha)]]; (split; [exact Hc|]).
    + now left.
    + right. exists alias. rewrite UPPER_eqb_ci_same. now split.
Qed.

Lemma FIND_TRUTH_BULLET_EXACT_STR_discovery (ch : Z) (text : string)
    (r r' : t) :
  same_but_discovery r r' ->
  FIND_TRUTH_BULLET_EXACT_STR ch text r'
  = FIND_TRUTH_BULLET_EXACT_STR ch text r.
Proof.
  intros (_ & Hc & Ht & Ha & _). unfold FIND_TRUTH_BULLET_EXACT_STR.
  now rewrite Hc, Ht, Ha.
Qed.

Lemma find_agree {A : Type} (f g : A -> bool) (l : list A) :
  (forall x, f x = g x) -> List.find f l = List.find g l.
Proof.
  intros H. induction l as [|x l IH]; [reflexivity|].
  cbn [List.find]. now rewrite H, IH.
Qed.

Lemma validate_is_find_exact (rows : list t) (ch : Z) (text : string) :
  validate rows ch text = bool_decide (is_Some (find_exact rows ch text)).
Proof.
  unfold validate, find_exact, query_first.
  rewrite (find_agree _ _ rows (exact_queries_agree ch text)).
  destruct (List.find _ rows) as [c|].
  - symmetry. apply bool_decide_eq_true. now eexists.
  - symmetry. apply bool_decide_eq_false. now intros [c Hc].
Qed.

Lemma find_exact_discovery (rows rows' : list t) (ch : Z) (text : string) :
  Forall2 same_but_discovery rows rows' ->
  id <$> find_exact rows' ch text = id <$> find_exact rows ch text.
Proof.
  unfold find_exact, query_first.
  induction 1 as [|r r' rows rows' Hr _ IH]; [reflexivity|].
  cbn [List.find].
  rewrite (FIND_TRUTH_BULLET_EXACT_STR_discovery ch text r r' Hr).
  destruct (FIND_TRUTH_BULLET_EXACT_STR ch text r); [|exact IH].
  cbn. f_equal. symmetry. apply Hr.
Qed.

(** C7. [validate] answers true exactly when [find_exact] returns a clue.
    Both accept a row exactly when it is of the channel and the text is, as
    a whole and letter case ignored, its trigger or one of its aliases:
    same length and, at each position, the same character up to the case of
    a letter. The discovery state plays no part: tables that differ only in
    [found] and [finder] get the same answers, and a found clue is
    returned. *)
Theorem validate_iff_find_exact (rows : list t) (ch : Z) (text : string) :
  (validate rows ch text = true <-> exists c, find_exact rows ch text = Some c)
  /\ (validate rows ch text = true
      <-> exists c, In c rows /\ channel_id c = ch /\ names_exactly c text)
  /\ (forall c, find_exact rows ch text = Some c ->
        In c rows /\ channel_id c = ch /\ names_exactly c text)
  /\ (forall rows', Forall2 same_but_discovery rows rows' ->
        validate rows' ch text = validate rows ch text
        /\ id <$> find_exact rows' ch text = id <$> find_exact rows ch text)
  /\ (forall c, In c rows -> found c = true -> channel_id c = ch ->
        names_exactly c text ->
        exists c', find_exact rows ch text = Some c').
Proof.
  assert (Hfound : forall c, find_exact rows ch text = Some c ->
            In c rows /\ channel_id c = ch /\ names_exactly c text).
  { intros c H. apply List.find_some in H as [Hin Hw].
    apply FIND_TRUTH_BULLET_EXACT_STR_iff in Hw. tauto. }
  assert (Hsome : forall c, In c rows -> channel_id c = ch ->
            names_exactly c text ->
            exists c', find_exact rows ch text = Some c').
  { intros c Hin Hc Hn.
    destruct (find_exact rows ch text) as [c'|] eqn:E; [now eexists|].
    pose proof (List.find_none _ _ E c Hin) as Hw. cbn beta in Hw.
    assert (FIND_TRUTH_BULLET_EXACT_STR ch text c = true) as Ht
      by (apply FIND_TRUTH_BULLET_EXACT_STR_iff; tauto).
    congruence. }
  rewrite validate_is_find_exact, bool_decide_eq_true.
  split; [reflexivity|]. split; [|split; [exact Hfound|split]].
  - split.
    + intros [c Hc]. exists c. now apply Hfound.
    + intros (c & Hin & Hc & Hn). exact (Hsome c Hin Hc Hn).
  - intros rows' HF. split.
    + rewrite !validate_is_find_exact.
      pose proof (find_exact_discovery rows rows' ch text HF) as E.
      destruct (find_exact rows' ch text), (find_exact rows ch text);
        try discriminate; reflexivity.
    + now apply find_exact_discovery.
  - intros c Hin _ Hc Hn. exact (Hsome c Hin Hc Hn).
Qed.

(** A found clue and texts that differ from its names in letter case only:
    "KNIFE" is its alias "knife" and "bloody kNIFE" its trigger, so both
    queries accept it; a shorter text and another channel are refused. *)
Lemma validate_iff_find_exact_witness :
  let knife :=
    TruthBullet.mk 1 10 "Bloody Knife" ["knife"] "A stained blade." false
      true (Some 3) in
  validate [knife] 10 "KNIFE" = true
  /\ (exists c, find_exact [knife] 10 "bloody kNIFE" = Some c)
  /\ names_exactly knife "KNIFE"
  /\ validate [knife] 10 "KNIF" = false
  /\ validate [knife] 11 "knife" = false.
Proof.
  cbv zeta.
  set (knife := TruthBullet.mk 1 10 "Bloody Knife" ["knife"]
                  "A stained blade." false true (Some 3)).
  assert (Halias : names_exactly knife "KNIFE").
  { right. exists "knife". split; [now left|reflexivity]. }
  assert (Htrigger : names_exactly knife "bloody kNIFE")
    by (left; reflexivity).
  destruct (validate_iff_find_exact [knife] 10 "KNIFE")
    as (_ & Hvalidate & _).
  destruct (validate_iff_find_exact [knife] 10 "bloody kNIFE")
    as (_ & _ & _ & _ & Hreturned).
  split; [|split; [|split; [exact Halias|split]]].
  - apply Hvalidate. exists knife. split; [now left|]. now split.
  - apply (Hreturned knife); [now left|reflexivity|reflexivity|exact Htrigger].
  - vm_compute. reflexivity.
  - vm_compute. reflexivity.
Defined.

End Registry.

(** ** Discovery state *)

Section Discovery.
Import TruthBullet.

Lemma Forall2_map_self {A : Type} (R : A -> A -> Prop) (f : A -> A)
    (l : list A) :
  (forall x, In x l -> R x (f x)) -> Forall2 R l (map f l).
Proof.
  induction l as [|x l IH]; intros H; cbn; constructor.
  - apply H. now left.
  - apply IH. intros y Hy. apply H. now right.
Qed.

Lemma Forall2_chain {A : Type} (R : A -> A -> Prop) :
  (forall x y z, R x y -> R y z -> R x z) ->
  forall l1 l2 l3, Forall2 R l1 l2 -> Forall2 R l2 l3 -> Forall2 R l1 l3.
Proof.
  intros Htrans l1 l2 l3 H12. revert l3.
  induction H12 as [|x y l1 l2 Hxy _ IH]; intros l3 H23;
    inversion H23; subst; constructor; eauto.
Qed.

Lemma Forall2_diag {A : Type} (R : A -> A -> Prop) (l : list A) :
  (forall x, R x x) -> Forall2 R l l.
Proof. intros H. induction l; constructor; auto. Qed.

(** [save] itself guards nothing: it writes the [found] and [finder] of the
    record it is given over the row, whatever the row held. *)
Lemma save_writes_discovery_state (self : t) (rows : list t) (r : t) :
  In r (save self rows) -> id r = id self -> r = self.
Proof.
  unfold save. intros Hin Hid. apply in_map_iff in Hin as (r0 & Hr & _).
  destruct (Z.eqb (id r0) (id self)) eqn:E; [congruence|].
  subst r0. apply Z.eqb_neq in E. contradiction.
Qed.

Lemma save_sound_record (self : t) (rows : list t) :
  finder_iff_found self ->
  Forall finder_iff_found rows -> Forall finder_iff_found (save self rows).
Proof.
  intros Hself H. unfold save.
  apply List.Forall_map. revert H. apply List.Forall_impl. intros r Hr.
  now destruct (Z.eqb _ _).
Qed.

Lemma save_not_unfinding (self : t) (rows : list t) :
  not_unfinding self rows -> Forall2 keeps_found rows (save self rows).
Proof.
  intros Hguard. unfold save.
  apply Forall2_map_self. intros r Hin. unfold keeps_found.
  destruct (Z.eqb (id r) _) eqn:E; [|tauto].
  apply Z.eqb_eq in E. split; [exact E|]. now apply (Hguard r).
Qed.

Lemma save_unfound_yet (self : t) (rows : list t) :
  unfound_yet self rows -> Forall2 keeps_found_row rows (save self rows).
Proof.
  intros Hguard. unfold save.
  apply Forall2_map_self. intros r Hin Hf.
  destruct (Z.eqb (id r) _) eqn:E; [|reflexivity].
  apply Z.eqb_eq in E. rewrite (Hguard r Hin E) in Hf. discriminate.
Qed.

Lemma unique_id_row (rows : list t) (r c : t) :
  NoDup (id <$> rows) -> In r rows -> In c rows -> id r = id c -> r = c.
Proof.
  induction rows as [|x rows IH]; [intros _ []|].
  rewrite fmap_cons, NoDup_cons. intros [Hx Hnd] Hr Hc Hid.
  assert (Hmem : forall y, In y rows -> id y ∈ id <$> rows).
  { intros y Hy. apply list_elem_of_fmap. exists y.
    split; [reflexivity|]. now apply list_elem_of_In. }
  destruct Hr as [Hr|Hr], Hc as [Hc|Hc].
  - congruence.
  - subst x. exfalso. apply Hx. rewrite Hid. now apply Hmem.
  - subst x. exfalso. apply Hx. rewrite <- Hid. now apply Hmem.
  - now apply IH.
Qed.

(** C5, as the registry keeps it. [save] is the one write of the registry
    and checks nothing: every row of the saved record's id becomes the
    record. So, along a run of saves: the table has a finder exactly on
    its found clues at the end when that held at the start and holds of
    every saved record; no clue goes from found back to unfound when no
    save puts an unfound record over a found row; and the row of a found
    clue, its finder included, is left as it was when every save is of a
    clue none of whose rows is found yet. That last condition holds of a
    clue [find] has just returned from the same table, ids being unique. *)
Theorem saves_keep_discovery_state (rows rows' : list t) :
  (saves sound_record rows rows' ->
   Forall finder_iff_found rows -> Forall finder_iff_found rows')
  /\ (saves not_unfinding rows rows' -> Forall2 keeps_found rows rows')
  /\ (saves unfound_yet rows rows' -> Forall2 keeps_found_row rows rows')
  /\ (forall ch text c self,
        NoDup (id <$> rows) -> find rows ch text = Some c ->
        id self = id c -> unfound_yet self rows)
  /\ (forall self r, In r (save self rows) -> id r = id self -> r = self).
Proof.
  split; [|split; [|split; [|split]]].
  - induction 1 as [rows|rows rows' self Hok _ IH]; [auto|].
    intros Hinv. apply IH. now apply save_sound_record.
  - induction 1 as [rows|rows rows' self Hok _ IH].
    + apply Forall2_diag. now split.
    + eapply Forall2_chain; [|apply save_not_unfinding, Hok|exact IH].
      intros x y z [Hxy Hf] [Hyz Hg]. split; [congruence|auto].
  - induction 1 as [rows|rows rows' self Hok _ IH].
    + apply Forall2_diag. now intros r _.
    + eapply Forall2_chain; [|apply save_unfound_yet, Hok|exact IH].
      unfold keeps_found_row. intros x y z Hxy Hyz Hx.
      specialize (Hxy Hx). subst y. auto.
  - intros ch text c self Hnd Hfind Hid r Hin Hr.
    unfold find, query_first in Hfind.
    apply List.find_some in Hfind as [Hc Hw].
    apply FIND_TRUTH_BULLET_STR_true in Hw as (_ & Hf & _).
    rewrite Hid in Hr.
    now rewrite (unique_id_row rows r c Hnd Hin Hc Hr).
  - intros self r. apply save_writes_discovery_state.
Qed.

(** A discovery beside a found clue: [find] returns the unfound clue, the
    record saved for it meets all three conditions, and the save leaves
    the found clue's row untouched. *)
Lemma saves_keep_discovery_state_witness :
  let clue := TruthBullet.mk 1 10 "key" [] "A brass key." false false None in
  let other := TruthBullet.mk 2 10 "map" [] "A map." false true (Some 3) in
  let by7 :=
    TruthBullet.mk 1 10 "key" [] "A brass key." false true (Some 7) in
  find [clue; other] 10 "the KEY and the map" = Some clue
  /\ unfound_yet by7 [clue; other]
  /\ save by7 [clue; other] = [by7; other]
  /\ Forall finder_iff_found (save by7 [clue; other])
  /\ Forall2 keeps_found [clue; other] (save by7 [clue; other])
  /\ Forall2 keeps_found_row [clue; other] (save by7 [clue; other]).
Proof.
  cbv zeta.
  set (clue := TruthBullet.mk 1 10 "key" [] "A brass key." false false None).
  set (other := TruthBullet.mk 2 10 "map" [] "A map." false true (Some 3)).
  set (by7 := TruthBullet.mk 1 10 "key" [] "A brass key." false true (Some 7)).
  destruct (saves_keep_discovery_state [clue; other] (save by7 [clue; other]))
    as (Hinv & Hkeep & Hrow & Hfind & _).
  assert (Hfound : find [clue; other] 10 "the KEY and the map" = Some clue)
    by (vm_compute; reflexivity).
  assert (Hyet : unfound_yet by7 [clue; other]).
  { apply (Hfind 10 "the KEY and the map" clue by7).
    - apply (bool_decide_unpack _). vm_compute. exact I.
    - exact Hfound.
    - reflexivity. }
  split; [exact Hfound|]. split; [exact Hyet|].
  split; [reflexivity|]. split; [|split].
  - apply Hinv.
    + eapply saves_more; [|apply saves_done].
      split; [reflexivity|now eexists].
    + repeat constructor; cbn; try discriminate; eauto.
      intros [x Hx]. discriminate.
  - apply Hkeep. eapply saves_more; [|apply saves_done].
    intros r _ _ _. reflexivity.
  - apply Hrow. eapply saves_more; [exact Hyet|apply saves_done].
Defined.

(** C5 as stated fails on [save]. Two discoveries of one clue, each holding
    the record [find] returned while the clue was unfound: the second save
    replaces the finder the first recorded. The record as it was read
    before the discovery, saved after it: the clue is unfound again and its
    finder gone. A record marked found without a finder: the table has a
    found clue with no finder. *)
Lemma save_overwrites_discovery_state :
  let clue := TruthBullet.mk 1 10 "key" [] "A brass key." false false None in
  let by7 :=
    TruthBullet.mk 1 10 "key" [] "A brass key." false true (Some 7) in
  let by9 :=
    TruthBullet.mk 1 10 "key" [] "A brass key." false true (Some 9) in
  let unsigned :=
    TruthBullet.mk 1 10 "key" [] "A brass key." false true None in
  find [clue] 10 "a key" = Some clue
  /\ finder <$> save by7 [clue] = [Some 7]
  /\ finder <$> save by9 (save by7 [clue]) = [Some 9]
  /\ found <$> save clue (save by7 [clue]) = [false]
  /\ finder <$> save clue (save by7 [clue]) = [None]
  /\ found <$> save unsigned [clue] = [true]
  /\ finder <$> save unsigned [clue] = [None].
Proof. cbv zeta. repeat split; vm_compute; reflexivity. Qed.

End Discovery.

(** ** The configuration resolver *)

Section Resolver.
Import Models.

Lemma fill_entry_requested (self : GuildConfig) (d : UpdateInput) (e' e : entry) :
  requested (fill_entry self d e') e
  = if (entry_eqb e e' && negb (populated self e))%bool
    then Some (guild_id self) else requested d e.
Proof.
  destruct e, e'; cbn;
    destruct (names self), (bullets self), (gacha self); reflexivity.
Qed.

(** What the loop over [include] leaves in [add_data]: a create for exactly
    the included relations that [self] holds as [None]. *)
Lemma fold_fill_requested (self : GuildConfig) (include : list entry)
    (d : UpdateInput) (e : entry) :
  requested (fold_left (fill_entry self) include d) e
  = if (includes e include && negb (populated self e))%bool
    then Some (guild_id self) else requested d e.
Proof.
  revert d. induction include as [|e' l IH]; intros d; [reflexivity|].
  cbn [fold_left]. rewrite IH, fill_entry_requested.
  unfold includes. cbn [existsb].
  destruct (entry_eqb e e'), (existsb (entry_eqb e) l),
    (populated self e); reflexivity.
Qed.

Lemma find_unique_populated (db : DB) (g : Z) (include : list entry)
    (config : GuildConfig) (e : entry) :
  find_unique db g include = Some config ->
  guild_id config = g
  /\ is_Some (tbl_guildconfig db !! g)
  /\ populated config e = (includes e include && stored db g e)%bool.
Proof.
  unfold find_unique. destruct (tbl_guildconfig db !! g) as [cols|]; [|discriminate].
  intros [= <-]. split; [reflexivity|]. split; [now eexists|].
  destruct e; cbn [populated stored names bullets gacha];
    (destruct (includes _ include); cbn [andb];
     [|apply bool_decide_eq_false; now intros [? ?]]).
  - destruct (tbl_names db !! g); cbn; reflexivity.
  - destruct (tbl_bullets db !! g); cbn; reflexivity.
  - destruct (tbl_gacha db !! g); cbn; reflexivity.
Qed.

Lemma create_row_absent {A : Type} (tbl : gmap Z A) (g : Z) (dflt : A)
    (inc : bool) :
  exists tbl',
    create_row
      (if (inc && negb (inc && bool_decide (is_Some (tbl !! g))))%bool
       then Some g else None) dflt tbl = Some tbl'
    /\ (inc = true -> is_Some (tbl' !! g))
    /\ (tbl' = tbl \/ (tbl !! g = None /\ tbl' = <[g := dflt]> tbl)).
Proof.
  destruct inc; cbn [andb negb]; [|exists tbl; cbn; intuition discriminate].
  destruct (tbl !! g) as [x|] eqn:E.
  - rewrite bool_decide_eq_true_2 by (now eexists). cbn.
    exists tbl. rewrite E. split; [reflexivity|]. split; [now eexists|now left].
  - rewrite bool_decide_eq_false_2 by (now intros [? ?]). cbn. rewrite E.
    exists (<[g := dflt]> tbl). split; [reflexivity|].
    split; [rewrite lookup_insert_eq; now eexists|now right].
Qed.

Lemma includes_In (e : entry) (include : list entry) :
  In e include -> includes e include = true.
Proof.
  intros H. unfold includes. apply existsb_exists. exists e.
  split; [assumption|now destruct e].
Qed.

(** On a record just read with the same [include], the fill-in never fails:
    it hands back the record as it was read and leaves every included
    sub-config stored. *)
Lemma fill_in_include_found (schema : Schema) (db : DB) (g : Z)
    (include : list entry) (config : GuildConfig) :
  find_unique db g include = Some config ->
  exists db',
    _fill_in_include schema config include db = (Return config, db')
    /\ tbl_guildconfig db' = tbl_guildconfig db
    /\ (forall e, In e include -> stored db' g e = true)
    /\ (tbl_bullets db' = tbl_bullets db
        \/ (tbl_bullets db !! g = None
            /\ tbl_bullets db' = <[g := default_bullets schema]> (tbl_bullets db))).
Proof.
  intros Hfind.
  destruct (find_unique_populated db g include config inc_names Hfind)
    as (Hg & [root Hroot] & Hpn).
  destruct (find_unique_populated db g include config inc_bullets Hfind)
    as (_ & _ & Hpb).
  destruct (find_unique_populated db g include config inc_gacha Hfind)
    as (_ & _ & Hpg).
  unfold _fill_in_include. destruct include as [|e0 l] eqn:Einc.
  { exists db. split; [reflexivity|]. split; [reflexivity|].
    split; [intros e []|now left]. }
  rewrite <- Einc in *. clear Einc e0 l.
  set (add_data := fold_left (fill_entry config) include no_data).
  assert (Hreq : forall e, requested add_data e
            = if (includes e include
                  && negb (includes e include && stored db g e))%bool
              then Some g else None).
  { intros e. unfold add_data. rewrite fold_fill_requested, Hg.
    destruct e; cbn [requested no_data];
      [rewrite Hpn|rewrite Hpb|rewrite Hpg]; reflexivity. }
  destruct (create_row_absent (tbl_names db) g (default_names schema)
              (includes inc_names include)) as (tn & Hn & Hn1 & _).
  destruct (create_row_absent (tbl_bullets db) g (default_bullets schema)
              (includes inc_bullets include)) as (tb & Hb & Hb1 & Hb2).
  destruct (create_row_absent (tbl_gacha db) g (default_gacha schema)
              (includes inc_gacha include)) as (tg & Hga & Hg1 & _).
  destruct (has_data add_data) eqn:Hdata.
  - unfold update. rewrite Hg, Hroot.
    change (add_names add_data) with (requested add_data inc_names).
    change (add_bullets add_data) with (requested add_data inc_bullets).
    change (add_gacha add_data) with (requested add_data inc_gacha).
    rewrite !Hreq. cbn [stored]. rewrite Hn, Hb, Hga.
    eexists. split; [reflexivity|]. cbn. split; [reflexivity|].
    split; [|exact Hb2].
    intros e He. apply includes_In in He.
    destruct e; cbn; apply bool_decide_eq_true; auto.
  - exists db. split; [reflexivity|]. split; [reflexivity|].
    split; [|now left].
    intros e He. apply includes_In in He.
    assert (requested add_data e = None) as Hnone.
    { unfold has_data in Hdata.
      apply orb_false_elim in Hdata as [Hdata H3].
      apply orb_false_elim in Hdata as [H1 H2].
      apply bool_decide_eq_false in H1, H2, H3.
      destruct e; cbn [requested];
        [destruct (add_names add_data)|destruct (add_bullets add_data)
        |destruct (add_gacha add_data)];
        try reflexivity; exfalso; eauto. }
    rewrite Hreq, He in Hnone. cbn [andb] in Hnone.
    destruct (stored db g e); [reflexivity|discriminate].
Qed.

(** [get] on a community whose root record exists: the sub-configs that
    were asked for and absent are created, so that afterwards each is
    stored; what is returned is the record as it was read before the
    creation, in which a relation is populated only if its row was there
    already. *)
Lemma get_reads_then_creates (schema : Schema) (db : DB) (g : Z)
    (include : list entry) :
  is_Some (tbl_guildconfig db !! g) ->
  exists config db',
    get schema db g include = (Return config, db')
    /\ (forall e, In e include -> stored db' g e = true)
    /\ (forall e, populated config e = (includes e include && stored db g e)%bool).
Proof.
  intros [root Hroot].
  destruct (find_unique db g include) as [config|] eqn:Hfind.
  - destruct (fill_in_include_found schema db g include config Hfind)
      as (db' & Hfill & _ & Hstored & _).
    exists config, db'. unfold get. rewrite Hfind. split; [exact Hfill|].
    split; [exact Hstored|].
    intros e. now apply (find_unique_populated db g include config e).
  - unfold find_unique in Hfind. rewrite Hroot in Hfind. discriminate.
Qed.

(** C2, at a community that has its root record and no names row yet. The
    names row is created with the schema's defaults, and a second [get]
    returns it; the first [get] returns the record as read before the
    creation, its [names] still [None]: [_fill_in_include] binds the
    record that [update] reads back to [config] and returns [self]. *)
Theorem get_returns_unfilled_names :
  let db := {| tbl_guildconfig := {[ 1 := {| player_role := Some 5 |} ]};
               tbl_names := ∅; tbl_bullets := ∅; tbl_gacha := ∅ |} in
  let first := get example_schema db 1 [inc_names] in
  let second := get example_schema (snd first) 1 [inc_names] in
  (exists config,
      fst first = Return config
      /\ names config = None
      /\ populated config inc_names = false)
  /\ tbl_names (snd first) !! 1 = Some (default_names example_schema)
  /\ (exists config,
       fst second = Return config
       /\ names config = Some (Build_Names 1 (default_names example_schema))).
Proof.
  cbv zeta. split; [|split].
  - eexists. split; [vm_compute; reflexivity|]. split; reflexivity.
  - vm_compute. reflexivity.
  - eexists. split; [vm_compute; reflexivity|]. reflexivity.
Qed.

End Resolver.

(** ** The set of guilds whose messages are searched *)

Section MsgEnabled.
Import Models BulletConfigCMDs.

Lemma create_row_grown {A : Type} (req : option Z) (dflt : A)
    (tbl tbl' : gmap Z A) :
  create_row req dflt tbl = Some tbl' ->
  tbl' = tbl
  \/ exists g, req = Some g /\ tbl !! g = None /\ tbl' = <[g := dflt]> tbl.
Proof.
  unfold create_row. destruct req as [g|]; [|intros [= <-]; now left].
  destruct (tbl !! g) eqn:E; [discriminate|].
  intros [= <-]. right. now exists g.
Qed.

Lemma fill_in_include_bullets (schema : Schema) (self : GuildConfig)
    (include : list entry) (db : DB) (r : outcome GuildConfig) (db' : DB) :
  _fill_in_include schema self include db = (r, db') ->
  grown_at schema (guild_id self) (tbl_bullets db) (tbl_bullets db')
  /\ (forall config, r = Return config -> config = self).
Proof.
  unfold _fill_in_include, grown_at.
  destruct include as [|e0 l] eqn:Einc.
  { intros [= <- <-]. split; [now left|now intros ? [= <-]]. }
  rewrite <- Einc. clear Einc e0 l.
  set (add_data := fold_left (fill_entry self) include no_data).
  destruct (has_data add_data);
    [|intros [= <- <-]; split; [now left|now intros ? [= <-]]].
  unfold update.
  destruct (tbl_guildconfig db !! guild_id self);
    [|intros [= <- <-]; split; [now left|now intros ? [= <-]]].
  destruct (create_row (add_names add_data) _ _) as [tn|];
    [|intros [= <- <-]; split; [now left|discriminate]].
  destruct (create_row (add_bullets add_data) _ _) as [tb|] eqn:Eb;
    [|intros [= <- <-]; split; [now left|discriminate]].
  destruct (create_row (add_gacha add_data) _ _) as [tg|];
    [|intros [= <- <-]; split; [now left|discriminate]].
  intros [= <- <-]. split; [|now intros ? [= <-]]. cbn.
  apply create_row_grown in Eb as [Heq|(g0 & Hreq & Hnone & Heq)];
    [now left|].
  right. rewrite Heq. clear Heq.
  change (add_bullets add_data) with (requested add_data inc_bullets) in Hreq.
  unfold add_data in Hreq. rewrite fold_fill_requested in Hreq.
  destruct (_ && _)%bool; [|discriminate].
  injection Hreq as ->. now split.
Qed.

(** What [fetch_config] with the bullets relation does to the bullet table,
    and what a bullet configuration it returns is. *)
Lemma fetch_config_bullets (schema : Schema) (db0 : DB) (g : Z)
    (r : outcome GuildConfig) (db1 : DB) :
  fetch_config schema db0 g [inc_bullets] = (r, db1) ->
  grown_at schema g (tbl_bullets db0) (tbl_bullets db1)
  /\ (forall config b, r = Return config -> bullets config = Some b ->
        bullets_guild_id b = g
        /\ tbl_bullets db0 !! g = Some (bullets_cols b)
        /\ tbl_bullets db1 = tbl_bullets db0).
Proof.
  unfold fetch_config, get_or_create.
  destruct (find_unique db0 g [inc_bullets]) as [config0|] eqn:Hfind.
  - destruct (fill_in_include_found schema db0 g _ config0 Hfind)
      as (db' & -> & _ & _ & Hgrow).
    intros [= <- <-]. split; [exact Hgrow|].
    intros config b [= <-] Hb.
    unfold find_unique in Hfind.
    destruct (tbl_guildconfig db0 !! g); [|discriminate].
    injection Hfind as <-. cbn in Hb.
    destruct (tbl_bullets db0 !! g) as [cols|] eqn:E; [|discriminate].
    injection Hb as <-. cbn. repeat split.
    destruct Hgrow as [->|[Hnone _]]; [reflexivity|congruence].
  - cbn [create]. intros Hfill.
    apply fill_in_include_bullets in Hfill as [Hgrow Hself].
    split; [exact Hgrow|].
    intros config b Hr Hb. rewrite (Hself config Hr) in Hb. discriminate.
Qed.

Lemma msg_enabled_inv_grown (schema : Schema) (g : Z) (db0 db1 : DB)
    (guilds : gset Z) :
  grown_at schema g (tbl_bullets db0) (tbl_bullets db1) ->
  msg_enabled_inv {| db := db0; msg_enabled_bullets_guilds := guilds |} ->
  msg_enabled_inv {| db := db1; msg_enabled_bullets_guilds := guilds |}.
Proof.
  intros Hgrow Hinv g' Hin. cbn in *.
  destruct (Hinv g' Hin) as (b & Hb & Hrest). cbn in Hb.
  exists b. split; [|exact Hrest].
  destruct Hgrow as [->|[Hnone ->]]; [exact Hb|].
  rewrite lookup_insert_ne; [exact Hb|congruence].
Qed.

Lemma get_or_create_then_save (schema : Schema) (db0 : DB) (g : Z)
    (f : BulletConfig -> BulletConfig) :
  (forall b, bullets_guild_id (f b) = bullets_guild_id b) ->
  exists cols,
    fst (BulletConfig_get_or_create schema db0 g) = Build_BulletConfig g cols
    /\ (tbl_bullets db0 !! g = Some cols
        \/ (tbl_bullets db0 !! g = None /\ cols = default_bullets schema))
    /\ forall g',
        tbl_bullets
          (BulletConfig_save (f (fst (BulletConfig_get_or_create schema db0 g)))
             (snd (BulletConfig_get_or_create schema db0 g))) !! g'
        = if decide (g = g')
          then Some (bullets_cols (f (Build_BulletConfig g cols)))
          else tbl_bullets db0 !! g'.
Proof.
  intros Hf. unfold BulletConfig_get_or_create, BulletConfig_get_or_none.
  destruct (tbl_bullets db0 !! g) as [cols|] eqn:E; cbn [fmap option_fmap option_map fst snd].
  - exists cols. split; [reflexivity|]. split; [now left|].
    intros g'. unfold BulletConfig_save. rewrite Hf. cbn. rewrite E. cbn.
    apply lookup_insert.
  - exists (default_bullets schema). split; [reflexivity|]. split; [now right|].
    intros g'. unfold BulletConfig_save. rewrite Hf. cbn.
    rewrite lookup_insert_eq. cbn. rewrite lookup_insert.
    destruct (decide (g = g')) as [->|Hne]; [reflexivity|].
    now rewrite lookup_insert_ne.
Qed.

Lemma set_investigation_mode_inv (schema : Schema) (guild mode : Z)
    (bot : THIABase) :
  msg_enabled_inv bot ->
  msg_enabled_inv (snd (set_investigation_mode schema guild mode bot)).
Proof.
  intros Hinv. unfold set_investigation_mode.
  destruct (InvestigationType_of mode) as [it|]; [|exact Hinv].
  destruct (get_or_create_then_save schema (db bot) guild
              (fun b => with_investigation_type b it) (fun _ => eq_refl))
    as (cols & Hfst & Hcols & Hsave).
  destruct (BulletConfig_get_or_create schema (db bot) guild) as [b db1].
  cbn [fst snd] in *. subst b.
  intros g Hin. cbn [db msg_enabled_bullets_guilds] in *.
  rewrite Hsave. destruct (decide (guild = g)) as [<-|Hne].
  - destruct it; cbn [is_command_only] in Hin.
    + eexists. split; [reflexivity|]. cbn.
      cbn [with_investigation_type bullets_enabled bullets_cols] in Hin.
      destruct (bullets_enabled cols) eqn:Hen; [now split|].
      destruct (Hinv guild Hin) as (b & Hb & Hben & _).
      destruct Hcols as [Hc|[Hc _]]; congruence.
    + set_solver.
  - apply Hinv. destruct it; cbn [is_command_only] in Hin.
    + destruct (bullets_enabled _); set_solver.
    + set_solver.
Qed.

Lemma toggle_bullets_inv (schema : Schema) (guild : Z) (toggle : bool)
    (bot : THIABase) :
  msg_enabled_inv bot ->
  msg_enabled_inv (snd (toggle_bullets schema guild toggle bot)).
Proof.
  intros Hinv. unfold toggle_bullets.
  destruct (fetch_config schema (db bot) guild [inc_bullets]) as [r db1] eqn:Hf.
  apply fetch_config_bullets in Hf as [Hgrow Hret].
  assert (Hstop : msg_enabled_inv
            {| db := db1;
               msg_enabled_bullets_guilds := msg_enabled_bullets_guilds bot |}).
  { apply (msg_enabled_inv_grown schema guild (db bot)); [exact Hgrow|].
    now destruct bot. }
  destruct r as [config|e]; [|exact Hstop].
  destruct (bullets config) as [b|] eqn:Hb; [|exact Hstop].
  destruct (Hret config b eq_refl Hb) as (Hg & Hlook & Htbl).
  destruct (if (negb (bullets_enabled b) && toggle)%bool
            then enable_check config else Return tt); [|exact Hstop].
  cbn [snd]. intros g Hin. cbn [db msg_enabled_bullets_guilds] in *.
  unfold BulletConfig_save. cbn [with_bullets_enabled bullets_guild_id].
  rewrite Htbl, Hg, Hlook. cbn [tbl_bullets].
  cbn [with_bullets_enabled investigation_type bullets_cols] in Hin.
  rewrite lookup_insert. destruct (decide (guild = g)) as [<-|Hne].
  - eexists. split; [reflexivity|]. cbn.
    destruct (investigation_type b) eqn:Hty; cbn [is_command_only negb] in Hin.
    + destruct toggle; [now split|set_solver].
    + destruct (Hinv guild Hin) as (b' & Hb' & _ & Hty').
      rewrite Hlook in Hb'. injection Hb' as <-. congruence.
  - apply Hinv.
    destruct (negb _); [destruct toggle|]; set_solver.
Qed.

Lemma fold_add_guilds (l : list BulletConfig) (acc : gset Z) (g : Z) :
  g ∈ fold_left (fun acc model => {[bullets_guild_id model]} ∪ acc) l acc ->
  g ∈ acc \/ exists m, In m l /\ bullets_guild_id m = g.
Proof.
  revert acc. induction l as [|m l IH]; intros acc H; [now left|].
  cbn [fold_left] in H. apply IH in H as [H|(m' & Hin & Hm')].
  - apply elem_of_union in H as [H|H]; [|now left].
    apply elem_of_singleton in H. right. exists m. split; [now left|auto].
  - right. exists m'. split; [now right|assumption].
Qed.

Lemma start_inv (db0 : DB) : msg_enabled_inv (start db0).
Proof.
  intros g Hin. cbn [start db msg_enabled_bullets_guilds] in *.
  apply fold_add_guilds in Hin as [Hin|(m & Hin & <-)]; [set_solver|].
  unfold find_many_msg_enabled in Hin.
  apply filter_In in Hin as [Hin Hp].
  apply andb_prop in Hp as [Hen Hty].
  apply list_elem_of_In, list_elem_of_fmap in Hin as ([k cols] & -> & Hin).
  apply elem_of_map_to_list in Hin. cbn in *.
  exists cols. split; [exact Hin|]. split; [exact Hen|].
  intros Heq. rewrite Heq in Hty. discriminate.
Qed.

(** C10. The set built at start-up satisfies the invariant: a guild is in
    it only if its bullet configuration is enabled and not command-only.
    Setting the investigation mode and toggling the bullets each preserve
    it, whatever their outcome, and so it holds after start-up and any
    sequence of the two commands. *)
Theorem msg_enabled_guilds_invariant (schema : Schema) :
  (forall db0, msg_enabled_inv (start db0))
  /\ (forall guild mode bot,
        msg_enabled_inv bot ->
        msg_enabled_inv (snd (set_investigation_mode schema guild mode bot)))
  /\ (forall guild toggle bot,
        msg_enabled_inv bot ->
        msg_enabled_inv (snd (toggle_bullets schema guild toggle bot)))
  /\ (forall db0 cmds,
        msg_enabled_inv
          (fold_left (fun bot c => run schema c bot) cmds (start db0))).
Proof.
  split; [exact start_inv|].
  split; [exact (set_investigation_mode_inv schema)|].
  split; [exact (toggle_bullets_inv schema)|].
  intros db0 cmds. generalize (start_inv db0). generalize (start db0).
  induction cmds as [|c cmds IH]; intros bot Hinv; [exact Hinv|].
  cbn [fold_left]. apply IH.
  destruct c; cbn [run];
    [now apply set_investigation_mode_inv|now apply toggle_bullets_inv].
Qed.

End MsgEnabled.

(** ** The currency ledger *)

Section Ledger.
Import Models GachaManagement.

Lemma upsert_lookup (key : string) (create : Z) (op : number_op)
    (players : gmap string Z) :
  snd (upsert key create op players) !! key = Some (fst (upsert key create op players))
  /\ forall k, k <> key -> snd (upsert key create op players) !! k = players !! k.
Proof.
  unfold upsert. destruct (players !! key); cbn [fst snd];
    (split; [apply lookup_insert_eq|intros k Hk; now apply lookup_insert_ne]).
Qed.

(** On a player who has a row, [debit] takes the amount off the balance,
    with no floor. *)
Lemma debit_existing (g u amount current : Z) (players : gmap string Z) :
  players !! user_guild_id g u = Some current ->
  fst (debit g u amount players) = current - amount
  /\ snd (debit g u amount players) !! user_guild_id g u = Some (current - amount).
Proof.
  intros H. unfold debit, upsert. rewrite H. cbn.
  split; [reflexivity|apply lookup_insert_eq].
Qed.

(** On a player who has a row, [grant] adds the amount to the balance; on
    one who has none it creates the row with the amount. *)
Lemma grant_balance (g u amount : Z) (players : gmap string Z) :
  fst (grant g u amount players)
  = default 0 (players !! user_guild_id g u) + amount
  /\ snd (grant g u amount players) !! user_guild_id g u
     = Some (default 0 (players !! user_guild_id g u) + amount).
Proof.
  unfold grant, upsert. destruct (players !! user_guild_id g u) as [cur|];
    cbn; (split; [|rewrite lookup_insert_eq; f_equal]); lia.
Qed.

(** Once its two checks have passed, a currency command runs its ledger
    operation on the player table, whatever the reply then does. *)
Lemma gacha_remove_runs_debit (config : GuildConfig) (g : Z) (user : Member)
    (amount : Z) (players : gmap string Z) :
  player_checks config user "remove currency" = Return tt ->
  snd (gacha_remove config g user amount players)
  = snd (debit g (member_id user) amount players).
Proof.
  intros H. unfold gacha_remove. rewrite H.
  now destruct (debit g (member_id user) amount players).
Qed.

Lemma gacha_give_runs_grant (config : GuildConfig) (g : Z) (user : Member)
    (amount : Z) (players : gmap string Z) :
  player_checks config user "receive currency" = Return tt ->
  snd (gacha_give config g user amount players)
  = snd (grant g (member_id user) amount players).
Proof.
  intros H. unfold gacha_give. rewrite H.
  now destruct (grant g (member_id user) amount players).
Qed.

(** The checks pass for a member who holds the configured player role. *)
Lemma player_checks_pass (verb : string) :
  player_checks
    {| guild_id := 1; guild_cols := {| player_role := Some 5 |};
       names := None; bullets := None; gacha := None |}
    {| member_id := 2; member_roles := [3; 5] |} verb
  = Return tt.
Proof. reflexivity. Qed.

(** C3, at a player without a row. [gacha_remove] gives its upsert the
    same create data as [gacha_give], [currency_amount = amount]: taking 10
    from a player who has no row leaves that player with 10, where a
    decrement of the absent balance 0 is -10. With a row, the same call
    decrements it, below zero when the amount is larger. *)
Theorem debit_absent_row_credits :
  fst (debit 1 2 10 ∅) = 10
  /\ snd (debit 1 2 10 ∅) !! user_guild_id 1 2 = Some 10
  /\ fst (grant 1 2 10 ∅) = 10
  /\ fst (debit 1 2 10 {[ user_guild_id 1 2 := 0 ]}) = -10
  /\ fst (debit 1 2 10 {[ user_guild_id 1 2 := 4 ]}) = -6.
Proof. repeat split; vm_compute; reflexivity. Qed.

(** C4. On a player without a row, [grant] creates the row with the
    amount as its balance, and a [debit] of the same amount after it brings
    the balance to 0; no other row changes. *)
Theorem grant_then_debit_fresh (g u amount : Z) (players : gmap string Z) :
  players !! user_guild_id g u = None ->
  let granted := grant g u amount players in
  let debited := debit g u amount (snd granted) in
  fst granted = amount
  /\ snd granted !! user_guild_id g u = Some amount
  /\ fst debited = 0
  /\ snd debited !! user_guild_id g u = Some 0
  /\ forall k, k <> user_guild_id g u -> snd debited !! k = players !! k.
Proof.
  intros Hfresh granted debited.
  assert (Hg : granted = (amount, <[user_guild_id g u := amount]> players)).
  { unfold granted, grant, upsert. now rewrite Hfresh. }
  assert (Hlook : snd granted !! user_guild_id g u = Some amount).
  { rewrite Hg. apply lookup_insert_eq. }
  destruct (debit_existing g u amount amount (snd granted) Hlook) as [Hd1 Hd2].
  fold debited in Hd1, Hd2. rewrite Z.sub_diag in Hd1, Hd2.
  repeat split; try assumption; [now rewrite Hg|].
  intros k Hk. unfold debited, debit.
  rewrite (proj2 (upsert_lookup _ _ _ _) k Hk), Hg. cbn.
  now apply lookup_insert_ne.
Qed.

Lemma grant_then_debit_fresh_witness :
  let granted := grant 7 42 10 ∅ in
  let debited := debit 7 42 10 (snd granted) in
  fst granted = 10
  /\ snd granted !! user_guild_id 7 42 = Some 10
  /\ fst debited = 0
  /\ snd debited !! user_guild_id 7 42 = Some 0
  /\ forall k, k <> user_guild_id 7 42 -> snd debited !! k = (∅ : gmap string Z) !! k.
Proof.
  apply (grant_then_debit_fresh 7 42 10 ∅). apply lookup_empty.
Defined.

(** C8. [reset_if_positive] counts one row, and sets the balance to 0,
    exactly when the player has a row with a balance above 0; otherwise it
    counts none and leaves the table as it is (a balance of 0, a negative
    balance, no row). Once its checks have passed, [gacha_reset_currency]
    raises "no currency to reset" for a count of 0 and returns
    otherwise. *)
Theorem reset_if_positive_iff (g u : Z) (players : gmap string Z) :
  let key := user_guild_id g u in
  let r := reset_if_positive g u players in
  (fst r = 1 <-> exists current, players !! key = Some current /\ 0 < current)
  /\ (fst r = 0 <-> ~ exists current, players !! key = Some current /\ 0 < current)
  /\ (fst r = 1 -> snd r = <[key := 0]> players)
  /\ (fst r = 0 -> snd r = players)
  /\ (forall config user,
        member_id user = u ->
        player_checks config user "reset currency" = Return tt ->
        gacha_reset_currency config g user players
        = (if Z.eqb (fst r) 0
           then Raise (BadArgument "The user has no currency to reset.")
           else Return tt, snd r)).
Proof.
  intros key r.
  assert (Hcmd : forall config user,
            member_id user = u ->
            player_checks config user "reset currency" = Return tt ->
            gacha_reset_currency config g user players
            = (if Z.eqb (fst r) 0
               then Raise (BadArgument "The user has no currency to reset.")
               else Return tt, snd r)).
  { intros config user Hu Hc. unfold gacha_reset_currency, r.
    rewrite Hc, Hu. destruct (reset_if_positive g u players) as [n p].
    cbn [fst snd]. now destruct (Z.eqb n 0). }
  assert (Hcases :
            ((exists current, players !! key = Some current /\ 0 < current)
             /\ r = (1, <[key := 0]> players))
            \/ ((~ exists current, players !! key = Some current /\ 0 < current)
                /\ r = (0, players))).
  { unfold r, reset_if_positive. fold key.
    destruct (players !! key) as [c|] eqn:E.
    - destruct (Z.ltb_spec 0 c) as [Hlt|Hge].
      + left. eauto.
      + right. split; [|reflexivity]. intros (c' & [= <-] & Hc). lia.
    - right. split; [|reflexivity]. intros (c' & [=] & _). }
  split; [|split; [|split; [|split; [|exact Hcmd]]]];
    destruct Hcases as [[Hex Hr]|[Hno Hr]]; rewrite Hr; cbn [fst snd];
    try tauto; try discriminate; try (split; [discriminate|tauto]).
Qed.

End Ledger.

(** ** The item catalogue *)

Section Catalogue.
Import Models GachaManagement.

Lemma count_positive (g : Z) (n : string) (items : list GachaItem) :
  Z.ltb 0 (count g n items) = true <-> named_in g n items.
Proof.
  unfold count, named_in. rewrite Z.ltb_lt. split.
  - intros H.
    destruct (List.filter _ items) as [|it l] eqn:E; [cbn in H; lia|].
    assert (In it (it :: l)) as Hin by now left.
    rewrite <- E in Hin. apply filter_In in Hin as [Hin Hp].
    apply andb_prop in Hp as [Hg Hn].
    apply Z.eqb_eq in Hg. apply String.eqb_eq in Hn. eauto.
  - intros (it & Hin & Hg & Hn).
    assert (In it (List.filter
                     (fun it => (Z.eqb (item_guild_id it) g
                                 && String.eqb (name it) n)%bool) items)) as H.
    { apply filter_In. split; [assumption|].
      apply andb_true_intro. split; [now apply Z.eqb_eq|now apply String.eqb_eq]. }
    destruct (List.filter _ items); [destruct H|cbn; lia].
Qed.

Lemma duplicate_is_not_invalid : duplicate_name <> invalid_amount.
Proof. discriminate. Qed.

Lemma named_in_app (g : Z) (n : string) (items more : list GachaItem) :
  named_in g n (items ++ more) <-> named_in g n items \/ named_in g n more.
Proof.
  unfold named_in. split.
  - intros (it & Hin & H). apply in_app_or in Hin as [Hin|Hin]; eauto.
  - intros [(it & Hin & H)|(it & Hin & H)]; exists it;
      (split; [apply in_or_app; auto|exact H]).
Qed.

(** C9. [add_gacha_item_modal] raises "An item with that name already
    exists." exactly when the community has an item of that name; whenever
    it raises, the items are as before. When it returns, the new item is
    the last row, a second submission of the name in the same community
    raises the duplicate error, and a submission of the same form in
    another community that has no item of the name returns too. *)
Theorem add_gacha_item_duplicate (int : string -> option Z) (g : Z)
    (kwargs : ModalKwargs) (items : list GachaItem) :
  let r := add_gacha_item_modal int g kwargs items in
  (fst r = Raise duplicate_name <-> named_in g (item_name kwargs) items)
  /\ (fst r = Return tt
      <-> ~ named_in g (item_name kwargs) items
          /\ exists amount, int (default "-1" (item_amount kwargs)) = Some amount
                            /\ -1 <= amount)
  /\ (forall e, fst r = Raise e -> snd r = items)
  /\ (fst r = Return tt ->
      (exists it, snd r = items ++ [it]
                  /\ item_guild_id it = g /\ name it = item_name kwargs)
      /\ (forall kwargs',
            item_name kwargs' = item_name kwargs ->
            add_gacha_item_modal int g kwargs' (snd r)
            = (Raise duplicate_name, snd r))
      /\ (forall g',
            g' <> g -> ~ named_in g' (item_name kwargs) items ->
            fst (add_gacha_item_modal int g' kwargs (snd r)) = Return tt)).
Proof.
  intros r. unfold r, add_gacha_item_modal. cbv zeta.
  destruct (Z.ltb 0 (count g (item_name kwargs) items)) eqn:Hc.
  - apply count_positive in Hc. cbn [fst snd].
    split; [tauto|]. split; [split; [discriminate|tauto]|].
    split; [reflexivity|discriminate].
  - assert (Hnot : ~ named_in g (item_name kwargs) items).
    { intros H. apply count_positive in H. congruence. }
    destruct (int (default "-1" (item_amount kwargs))) as [amount|] eqn:Hint.
    + destruct (Z.ltb_spec amount (-1)) as [Hlow|Hlow]; cbn [fst snd].
      * split; [|split; [|split; [reflexivity|discriminate]]].
        -- split; [intros [= H]; now apply duplicate_is_not_invalid in H|tauto].
        -- split; [discriminate|]. intros (_ & a & [= <-] & Ha). lia.
      * split; [split; [discriminate|tauto]|].
        split; [split; [eauto|reflexivity]|].
        split; [discriminate|].
        intros _. split; [eexists; split; [reflexivity|now split]|]. split.
        -- intros kwargs' Hname.
           assert (Z.ltb 0 (count g (item_name kwargs')
                     (items ++ [ {| item_guild_id := g;
                                    name := item_name kwargs;
                                    description := item_description kwargs;
                                    amount := amount;
                                    image := item_image kwargs |} ])) = true) as ->.
           { apply count_positive, named_in_app. right.
             eexists. split; [now left|]. now split. }
           reflexivity.
        -- intros g' Hg' Hfree.
           assert (Z.ltb 0 (count g' (item_name kwargs)
                     (items ++ [ {| item_guild_id := g;
                                    name := item_name kwargs;
                                    description := item_description kwargs;
                                    amount := amount;
                                    image := item_image kwargs |} ])) = false) as ->.
           { apply not_true_is_false. intros H.
             apply count_positive, named_in_app in H as [H|(it & [<-|[]] & Hg & _)];
               [now apply Hfree|]. cbn in Hg. congruence. }
           reflexivity.
    + cbn [fst snd]. split; [|split; [|split; [reflexivity|discriminate]]].
      * split; [intros [= H]; now apply duplicate_is_not_invalid in H|tauto].
      * split; [discriminate|]. intros (_ & a & [=] & _).
Qed.

End Catalogue.

(** * Further properties *)

(** ** Searching clues *)

Section RegistrySearch.
Import Text TruthBullet.

Lemma find_returns_unfound_witness :
  let clue := TruthBullet.mk 1 10 "Sure" ["x_y"] "A note." false false None in
  In clue [clue] /\ channel_id clue = 10 /\ found clue = false
  /\ (backslash_free clue -> occurs_in clue "100% sure" = true).
Proof.
  cbv zeta.
  apply (find_returns_unfound
           [TruthBullet.mk 1 10 "Sure" ["x_y"] "A note." false false None]
           10 "100% sure").
  vm_compute. reflexivity.
Defined.

Lemma find_split {A : Type} (f : A -> bool) (l : list A) (x : A) :
  In x l -> f x = true ->
  exists pre y post,
    l = pre ++ y :: post /\ List.find f l = Some y
    /\ Forall (fun r => f r = false) pre.
Proof.
  induction l as [|a l IH]; intros Hin Hx; [destruct Hin|].
  cbn [List.find]. destruct (f a) eqn:Ha.
  - exists [], a, l. repeat split. constructor.
  - destruct Hin as [->|Hin]; [congruence|].
    destruct (IH Hin Hx) as (pre & y & post & -> & Hfind & Hpre).
    exists (a :: pre), y, post. repeat split; [assumption|].
    now constructor.
Qed.

Lemma FIND_TRUTH_BULLET_STR_accepts (ch : Z) (text : string) (c : t) :
  channel_id c = ch -> found c = false -> backslash_free c ->
  occurs_in c text = true ->
  FIND_TRUTH_BULLET_STR ch text c = true.
Proof.
  intros Hc Hf [Ht Ha] Hocc. unfold FIND_TRUTH_BULLET_STR.
  rewrite Hc, Z.eqb_refl, Hf. cbn [Bool.eqb andb].
  unfold occurs_in in Hocc. apply orb_true_iff in Hocc as [Hocc|Hocc].
  - now rewrite (ILIKE_contains text _ Ht), Hocc.
  - apply orb_true_iff. right. apply existsb_exists in Hocc as (a & Hin & Hocc).
    apply existsb_exists. exists a. split; [assumption|].
    now rewrite (ILIKE_contains text _ (Ha a Hin)).
Qed.

(** When an unfound clue of the channel, with no backslash in its trigger
    and aliases, has its trigger or an alias in the text, the search returns
    a clue: the first row, in storage order, that the query accepts. *)
Theorem find_first_unfound_match (rows : list t) (ch : Z) (text : string)
    (c : t) :
  In c rows -> channel_id c = ch -> found c = false -> backslash_free c ->
  occurs_in c text = true ->
  exists pre c' post,
    rows = pre ++ c' :: post
    /\ find rows ch text = Some c'
    /\ Forall (fun r => FIND_TRUTH_BULLET_STR ch text r = false) pre.
Proof.
  intros Hin Hc Hf Hfree Hocc.
  apply (find_split _ rows c Hin).
  now apply FIND_TRUTH_BULLET_STR_accepts.
Qed.

Lemma find_first_unfound_match_witness :
  let found_one := TruthBullet.mk 1 10 "sure" [] "Old." false true (Some 4) in
  let clue := TruthBullet.mk 2 10 "Sure" ["x_y"] "A note." false false None in
  exists pre c' post,
    [found_one; clue] = pre ++ c' :: post
    /\ find [found_one; clue] 10 "100% sure" = Some c'
    /\ Forall (fun r => FIND_TRUTH_BULLET_STR 10 "100% sure" r = false) pre.
Proof.
  cbv zeta.
  apply (find_first_unfound_match _ 10 "100% sure"
           (TruthBullet.mk 2 10 "Sure" ["x_y"] "A note." false false None)).
  - right. now left.
  - reflexivity.
  - reflexivity.
  - split; [reflexivity|]. intros a [<-|[]]. reflexivity.
  - reflexivity.
Defined.

Lemma like_toks_lits_same (v s : string) :
  like_toks true (lits v) s = ci_same v s.
Proof.
  revert s. induction v as [|c v IH]; intros [|d s]; try reflexivity.
  cbn [lits like_toks ci_same]. now rewrite IH.
Qed.

Lemma ILIKE_escaped (s v : string) :
  has_char backslash v = false ->
  ILIKE s (escape_ilike v) = ci_equal s v.
Proof.
  intros Hfree. unfold ILIKE.
  rewrite (escape_ilike_literal v Hfree), like_toks_lits_same.
  apply ci_same_equal.
Qed.

Lemma ILIKE_escaped_iff (s v : string) :
  has_char backslash v = false ->
  (ILIKE s (escape_ilike v) = true <-> UPPER s = UPPER v).
Proof.
  intros Hfree. rewrite (ILIKE_escaped s v Hfree).
  unfold ci_equal. apply String.eqb_eq.
Qed.

(** A text without a backslash, once escaped, is an ILIKE pattern that
    matches exactly the strings equal to the text up to letter case: its
    percent signs and underscores stand for themselves. *)
Theorem ILIKE_escape_ilike_equal (s v : string) :
  has_char backslash v = false ->
  (ILIKE s (escape_ilike v) = true <-> UPPER s = UPPER v).
Proof.
  apply ILIKE_escaped_iff.
Qed.

Lemma ILIKE_escape_ilike_equal_witness :
  ILIKE "100%_SURE" (escape_ilike "100%_sure") = true
  <-> UPPER "100%_SURE" = UPPER "100%_sure".
Proof. apply ILIKE_escape_ilike_equal. reflexivity. Defined.

(** For a trigger without a backslash, [find_possible_bullet] returns a
    row of the channel whose trigger is the given one up to letter case,
    and returns nothing exactly when the channel has no such row; aliases
    play no part, and whatever it returns [validate] accepts too. *)
Theorem find_possible_bullet_by_trigger (rows : list t) (ch : Z)
    (trig : string) :
  has_char backslash trig = false ->
  (forall c, find_possible_bullet rows ch trig = Some c ->
     In c rows /\ channel_id c = ch /\ UPPER (trigger c) = UPPER trig
     /\ validate rows ch trig = true)
  /\ (find_possible_bullet rows ch trig = None
      <-> forall c, In c rows -> channel_id c = ch ->
            UPPER (trigger c) <> UPPER trig).
Proof.
  intros Hfree. unfold find_possible_bullet. split.
  - intros c H. apply List.find_some in H as [Hin Hw].
    apply andb_prop in Hw as [Hc Hm]. apply Z.eqb_eq in Hc.
    apply (ILIKE_escaped_iff _ _ Hfree) in Hm.
    repeat split; try assumption.
    rewrite validate_is_find_exact. apply bool_decide_eq_true.
    destruct (find_exact rows ch trig) as [c'|] eqn:E; [now eexists|].
    pose proof (List.find_none _ _ E c Hin) as Hno. cbn beta in Hno.
    unfold FIND_TRUTH_BULLET_EXACT_STR in Hno.
    rewrite Hc, Z.eqb_refl, Hm, String.eqb_refl in Hno. discriminate.
  - split.
    + intros H c Hin Hc Heq.
      pose proof (List.find_none _ _ H c Hin) as Hno. cbn beta in Hno.
      apply (ILIKE_escaped_iff _ _ Hfree) in Heq.
      rewrite Hc, Z.eqb_refl, Heq in Hno. discriminate.
    + intros H. destruct (List.find _ rows) as [c|] eqn:E; [|reflexivity].
      apply List.find_some in E as [Hin Hw].
      apply andb_prop in Hw as [Hc Hm]. apply Z.eqb_eq in Hc.
      apply (ILIKE_escaped_iff _ _ Hfree) in Hm.
      now destruct (H c Hin Hc).
Qed.

End RegistrySearch.

Section RegistrySearchWitness.
Import Text TruthBullet.

Lemma find_possible_bullet_by_trigger_witness :
  let clue := TruthBullet.mk 1 10 "Bloody_Knife" ["knife"] "A knife." false true (Some 4) in
  (forall c, find_possible_bullet [clue] 10 "bloody_knife" = Some c ->
     In c [clue] /\ channel_id c = 10
     /\ UPPER (trigger c) = UPPER "bloody_knife"
     /\ validate [clue] 10 "bloody_knife" = true)
  /\ (find_possible_bullet [clue] 10 "bloody_knife" = None
      <-> forall c, In c [clue] -> channel_id c = 10 ->
            UPPER (trigger c) <> UPPER "bloody_knife").
Proof.
  cbv zeta. apply find_possible_bullet_by_trigger. reflexivity.
Defined.

End RegistrySearchWitness.

(** ** Reading and creating configuration records *)

Section ResolverMore.
Import Models.

Lemma get_reads_then_creates_witness :
  let db := {| tbl_guildconfig := {[ 1 := {| player_role := Some 5 |} ]};
               tbl_names := ∅; tbl_bullets := ∅; tbl_gacha := ∅ |} in
  exists config db',
    get example_schema db 1 [inc_names; inc_bullets] = (Return config, db')
    /\ (forall e, In e [inc_names; inc_bullets] -> stored db' 1 e = true)
    /\ (forall e, populated config e
                  = (includes e [inc_names; inc_bullets] && stored db 1 e)%bool).
Proof.
  cbv zeta. apply get_reads_then_creates.
  exists {| player_role := Some 5 |}. reflexivity.
Defined.

(** Without a root record, [get] raises the not-found error, [get_or_none]
    returns [None], both leaving the store as it is, and [get_or_create]
    creates the root record with the schema's defaults. *)
Theorem get_without_root (schema : Schema) (db : DB) (g : Z)
    (include : list entry) :
  tbl_guildconfig db !! g = None ->
  get schema db g include = (Raise RecordNotFoundError, db)
  /\ get_or_none schema db g include = (Return None, db)
  /\ tbl_guildconfig (snd (get_or_create schema db g include)) !! g
     = Some (default_guild schema)
  /\ (forall config, fst (get_or_create schema db g include) = Return config ->
        guild_id config = g /\ guild_cols config = default_guild schema
        /\ names config = None /\ bullets config = None /\ gacha config = None).
Proof.
  intros Hroot. unfold get, get_or_none, get_or_create, find_unique.
  rewrite Hroot. split; [reflexivity|]. split; [reflexivity|].
  cbn [create].
  set (config0 := {| guild_id := g; guild_cols := default_guild schema;
                     names := None; bullets := None; gacha := None |}).
  set (db1 := {| tbl_guildconfig := <[g := default_guild schema]> (tbl_guildconfig db);
                 tbl_names := tbl_names db; tbl_bullets := tbl_bullets db;
                 tbl_gacha := tbl_gacha db |}).
  assert (Hroot1 : tbl_guildconfig db1 !! g = Some (default_guild schema))
    by apply lookup_insert_eq.
  assert (Hend : forall r db',
            tbl_guildconfig db' = tbl_guildconfig db1 ->
            (r = Return config0 \/ exists e, r = Raise e) ->
            tbl_guildconfig (snd (r, db')) !! g = Some (default_guild schema)
            /\ (forall config, fst (r, db') = Return config ->
                  guild_id config = g /\ guild_cols config = default_guild schema
                  /\ names config = None /\ bullets config = None
                  /\ gacha config = None)).
  { intros r db' Htbl Hr. cbn [fst snd]. rewrite Htbl. split; [exact Hroot1|].
    intros config ->. destruct Hr as [[= ->]|[e [=]]]. now repeat split. }
  unfold _fill_in_include. destruct include as [|e0 l]; [apply Hend; auto|].
  destruct (has_data _); [|apply Hend; auto].
  unfold update. cbn [guild_id config0]. rewrite Hroot1.
  repeat match goal with
         | |- context [create_row ?a ?b ?c] => destruct (create_row a b c)
         end; apply Hend; eauto.
Qed.

Lemma get_without_root_witness :
  let db := {| tbl_guildconfig := ∅; tbl_names := ∅;
               tbl_bullets := ∅; tbl_gacha := ∅ |} in
  get example_schema db 7 [inc_gacha] = (Raise RecordNotFoundError, db)
  /\ get_or_none example_schema db 7 [inc_gacha] = (Return None, db)
  /\ tbl_guildconfig (snd (get_or_create example_schema db 7 [inc_gacha])) !! 7
     = Some (default_guild example_schema)
  /\ (forall config,
        fst (get_or_create example_schema db 7 [inc_gacha]) = Return config ->
        guild_id config = 7 /\ guild_cols config = default_guild example_schema
        /\ names config = None /\ bullets config = None /\ gacha config = None).
Proof. cbv zeta. apply get_without_root. apply lookup_empty. Defined.

Lemma stored_populated_after (db : DB) (g : Z) (include : list entry)
    (config : GuildConfig) :
  find_unique db g include = Some config ->
  (forall e, In e include -> stored db g e = true) ->
  forall e, In e include -> populated config e = true.
Proof.
  intros Hfind Hstored e He.
  destruct (find_unique_populated db g include config e Hfind) as (_ & _ & ->).
  now rewrite (includes_In e include He), (Hstored e He).
Qed.

(** Once [get] has run on a community, a second [get] with the same
    [include] returns an aggregate in which every included sub-config is
    populated, and changes nothing in the store. *)
Theorem get_again_populated (schema : Schema) (db : DB) (g : Z)
    (include : list entry) :
  is_Some (tbl_guildconfig db !! g) ->
  exists config db1 config',
    get schema db g include = (Return config, db1)
    /\ get schema db1 g include = (Return config', db1)
    /\ forall e, In e include -> populated config' e = true.
Proof.
  intros [root Hroot].
  destruct (find_unique db g include) as [config|] eqn:Hfind;
    [|unfold find_unique in Hfind; rewrite Hroot in Hfind; discriminate].
  destruct (fill_in_include_found schema db g include config Hfind)
    as (db1 & Hfill & Hsame & Hstored & _).
  assert (Hroot1 : tbl_guildconfig db1 !! g = Some root) by now rewrite Hsame.
  destruct (find_unique db1 g include) as [config'|] eqn:Hfind';
    [|unfold find_unique in Hfind'; rewrite Hroot1 in Hfind'; discriminate].
  pose proof (stored_populated_after db1 g include config' Hfind' Hstored)
    as Hpop.
  exists config, db1, config'. unfold get. rewrite Hfind, Hfind'.
  split; [exact Hfill|]. split; [|exact Hpop].
  unfold _fill_in_include. destruct include as [|e0 l] eqn:Einc; [reflexivity|].
  rewrite <- Einc in *.
  assert (Hnone : forall e,
            requested (fold_left (fill_entry config') include no_data) e = None).
  { intros e. rewrite fold_fill_requested.
    destruct (includes e include) eqn:Hi; [|now destruct e].
    assert (In e include) as He.
    { unfold includes in Hi. apply existsb_exists in Hi as (e' & Hin & Heq).
      now destruct e, e'. }
    rewrite (Hpop e He). now destruct e. }
  unfold has_data.
  change (add_names ?d) with (requested d inc_names).
  change (add_bullets ?d) with (requested d inc_bullets).
  change (add_gacha ?d) with (requested d inc_gacha).
  rewrite !Hnone.
  rewrite bool_decide_eq_false_2 by (now intros [? ?]). reflexivity.
Qed.

Lemma get_again_populated_witness :
  let db := {| tbl_guildconfig := {[ 1 := {| player_role := Some 5 |} ]};
               tbl_names := ∅; tbl_bullets := ∅; tbl_gacha := ∅ |} in
  exists config db1 config',
    get example_schema db 1 [inc_names] = (Return config, db1)
    /\ get example_schema db1 1 [inc_names] = (Return config', db1)
    /\ forall e, In e [inc_names] -> populated config' e = true.
Proof.
  cbv zeta. apply get_again_populated.
  exists {| player_role := Some 5 |}. reflexivity.
Defined.

End ResolverMore.

(** ** What the resolver leaves alone *)

Section ResolverFrame.
Import Models.

Lemma create_row_grown_with {A : Type} (req : option Z) (dflt : A) (g : Z)
    (tbl tbl' : gmap Z A) :
  (req = None \/ req = Some g) ->
  create_row req dflt tbl = Some tbl' -> grown_with dflt g tbl tbl'.
Proof.
  intros Hreq H. apply create_row_grown in H as [->|(g0 & Hg0 & Hnone & ->)];
    [now left|].
  right. destruct Hreq as [Hreq|Hreq]; rewrite Hreq in Hg0; [discriminate|].
  injection Hg0 as <-. now split.
Qed.

Lemma fold_fill_requested_cases (self : GuildConfig) (include : list entry)
    (e : entry) :
  requested (fold_left (fill_entry self) include no_data) e = None
  \/ requested (fold_left (fill_entry self) include no_data) e
     = Some (guild_id self).
Proof.
  rewrite fold_fill_requested. destruct (_ && _)%bool; [now right|left].
  now destruct e.
Qed.

Lemma fill_in_include_grows (schema : Schema) (self : GuildConfig)
    (include : list entry) (db : DB) :
  tbl_guildconfig (snd (_fill_in_include schema self include db))
  = tbl_guildconfig db
  /\ grown_with (default_names schema) (guild_id self) (tbl_names db)
       (tbl_names (snd (_fill_in_include schema self include db)))
  /\ grown_with (default_bullets schema) (guild_id self) (tbl_bullets db)
       (tbl_bullets (snd (_fill_in_include schema self include db)))
  /\ grown_with (default_gacha schema) (guild_id self) (tbl_gacha db)
       (tbl_gacha (snd (_fill_in_include schema self include db))).
Proof.
  assert (Hsame : tbl_guildconfig db = tbl_guildconfig db
            /\ grown_with (default_names schema) (guild_id self) (tbl_names db)
                 (tbl_names db)
            /\ grown_with (default_bullets schema) (guild_id self)
                 (tbl_bullets db) (tbl_bullets db)
            /\ grown_with (default_gacha schema) (guild_id self) (tbl_gacha db)
                 (tbl_gacha db)).
  { repeat split; now left. }
  unfold _fill_in_include. destruct include as [|e0 l] eqn:Einc; [exact Hsame|].
  rewrite <- Einc. clear Einc e0 l.
  pose proof (fold_fill_requested_cases self include inc_names) as Hn.
  pose proof (fold_fill_requested_cases self include inc_bullets) as Hb.
  pose proof (fold_fill_requested_cases self include inc_gacha) as Hg.
  cbn [requested] in Hn, Hb, Hg.
  set (add_data := fold_left (fill_entry self) include no_data) in *.
  destruct (has_data add_data); [|exact Hsame].
  unfold update. destruct (tbl_guildconfig db !! guild_id self); [|exact Hsame].
  destruct (create_row (add_names add_data) _ _) as [tn|] eqn:En;
    [|exact Hsame].
  destruct (create_row (add_bullets add_data) _ _) as [tb|] eqn:Eb;
    [|exact Hsame].
  destruct (create_row (add_gacha add_data) _ _) as [tg|] eqn:Eg;
    [|exact Hsame].
  cbn. split; [reflexivity|].
  split; [exact (create_row_grown_with _ _ _ _ _ Hn En)|].
  split; [exact (create_row_grown_with _ _ _ _ _ Hb Eb)|].
  exact (create_row_grown_with _ _ _ _ _ Hg Eg).
Qed.

Lemma grown_with_keeps {A : Type} (dflt : A) (g : Z) (tbl tbl' : gmap Z A) :
  grown_with dflt g tbl tbl' ->
  keeps_rows tbl tbl' /\ forall g', g' <> g -> tbl' !! g' = tbl !! g'.
Proof.
  intros [->|[Hnone ->]]; [now split|]. split.
  - intros g' x Hx. rewrite lookup_insert_ne; [exact Hx|congruence].
  - intros g' Hne. now apply lookup_insert_ne.
Qed.

(** [get_or_create] never changes or removes a row that is there: every
    row of the four tables is found again as it was, and the rows of other
    communities are exactly as before. *)
Theorem get_or_create_keeps_rows (schema : Schema) (db : DB) (g : Z)
    (include : list entry) :
  let db' := snd (get_or_create schema db g include) in
  keeps_rows (tbl_guildconfig db) (tbl_guildconfig db')
  /\ keeps_rows (tbl_names db) (tbl_names db')
  /\ keeps_rows (tbl_bullets db) (tbl_bullets db')
  /\ keeps_rows (tbl_gacha db) (tbl_gacha db')
  /\ forall g', g' <> g ->
       tbl_guildconfig db' !! g' = tbl_guildconfig db !! g'
       /\ tbl_names db' !! g' = tbl_names db !! g'
       /\ tbl_bullets db' !! g' = tbl_bullets db !! g'
       /\ tbl_gacha db' !! g' = tbl_gacha db !! g'.
Proof.
  cbv zeta. unfold get_or_create.
  destruct (find_unique db g include) as [config|] eqn:Hfind.
  - destruct (find_unique_populated db g include config inc_names Hfind)
      as (Hg & _ & _).
    destruct (fill_in_include_grows schema config include db)
      as (Hroot & Hn & Hb & Hga).
    rewrite Hg in Hn, Hb, Hga.
    apply grown_with_keeps in Hn as [Hn1 Hn2], Hb as [Hb1 Hb2],
      Hga as [Hg1 Hg2].
    rewrite Hroot. repeat split; auto. now intros ? ?.
  - cbn [create].
    match goal with
    | |- context [_fill_in_include schema ?c include ?d] =>
        destruct (fill_in_include_grows schema c include d)
          as (Hroot & Hn & Hb & Hga)
    end.
    cbn [guild_id tbl_names tbl_bullets tbl_gacha tbl_guildconfig] in *.
    apply grown_with_keeps in Hn as [Hn1 Hn2], Hb as [Hb1 Hb2],
      Hga as [Hg1 Hg2].
    rewrite Hroot. repeat split; auto.
    + intros g' x Hx. rewrite lookup_insert_ne; [exact Hx|].
      intros ->. unfold find_unique in Hfind. rewrite Hx in Hfind.
      discriminate.
    + now apply lookup_insert_ne.
Qed.

End ResolverFrame.

(** ** The per-guild records: get, create, save *)

Section GetMethods.
Import Models GachaManagement.

Lemma BulletConfig_eta (b : BulletConfig) :
  Build_BulletConfig (bullets_guild_id b) (bullets_cols b) = b.
Proof. now destruct b. Qed.

(** [get_or_create] on the bullet configuration returns the row that is
    there, touching nothing, or creates the default row; either way the
    record is of the guild asked for, [get_or_none] then returns it, a
    second [get_or_create] returns it again without a change, and no other
    guild's row is touched. *)
Theorem BulletConfig_get_or_create_idempotent (schema : Schema) (db : DB)
    (g : Z) :
  let b := fst (BulletConfig_get_or_create schema db g) in
  let db1 := snd (BulletConfig_get_or_create schema db g) in
  bullets_guild_id b = g
  /\ bullets_cols b = default (default_bullets schema) (tbl_bullets db !! g)
  /\ (is_Some (tbl_bullets db !! g) -> db1 = db)
  /\ BulletConfig_get_or_none db1 g = Some b
  /\ BulletConfig_get_or_create schema db1 g = (b, db1)
  /\ forall g', g' <> g -> tbl_bullets db1 !! g' = tbl_bullets db !! g'.
Proof.
  cbv zeta. unfold BulletConfig_get_or_create, BulletConfig_get_or_none.
  destruct (tbl_bullets db !! g) as [cols|] eqn:E; cbn.
  - rewrite E. cbn. repeat split; try reflexivity.
  - rewrite lookup_insert_eq. cbn. repeat split; try reflexivity.
    + now intros [? ?].
    + intros g' Hne. now apply lookup_insert_ne.
Qed.

(** [save] on a bullet configuration whose guild has a row: the record
    read back is the record saved; no other guild's row and no other table
    changes. Without a row for the guild, [save] writes nothing. *)
Theorem BulletConfig_save_read_back (self : BulletConfig) (db : DB) :
  (is_Some (tbl_bullets db !! bullets_guild_id self) ->
   BulletConfig_get_or_none (BulletConfig_save self db) (bullets_guild_id self)
   = Some self)
  /\ (tbl_bullets db !! bullets_guild_id self = None ->
      BulletConfig_save self db = db)
  /\ (forall g', g' <> bullets_guild_id self ->
        tbl_bullets (BulletConfig_save self db) !! g' = tbl_bullets db !! g')
  /\ tbl_guildconfig (BulletConfig_save self db) = tbl_guildconfig db
  /\ tbl_names (BulletConfig_save self db) = tbl_names db
  /\ tbl_gacha (BulletConfig_save self db) = tbl_gacha db.
Proof.
  unfold BulletConfig_save, BulletConfig_get_or_none.
  destruct (tbl_bullets db !! bullets_guild_id self) as [cols|] eqn:E.
  - cbn. repeat split; try reflexivity.
    + intros _. rewrite lookup_insert_eq. cbn. f_equal. apply BulletConfig_eta.
    + discriminate.
    + intros g' Hne. apply lookup_insert_ne. congruence.
  - repeat split; try reflexivity. now intros [? ?].
Qed.

(** [gacha_cost] leaves the guild with a gacha configuration whose cost is
    the number given, whatever it is (no sign or range check), creating the
    row if there was none; other guilds and the other tables are as
    before. *)
Theorem gacha_cost_stored (schema : Schema) (g cost : Z) (db : DB) :
  tbl_gacha (gacha_cost schema g cost db) !! g = Some {| currency_cost := cost |}
  /\ (forall g', g' <> g ->
        tbl_gacha (gacha_cost schema g cost db) !! g' = tbl_gacha db !! g')
  /\ tbl_guildconfig (gacha_cost schema g cost db) = tbl_guildconfig db
  /\ tbl_names (gacha_cost schema g cost db) = tbl_names db
  /\ tbl_bullets (gacha_cost schema g cost db) = tbl_bullets db.
Proof.
  unfold gacha_cost, GachaConfig_get_or_create, GachaConfig_get_or_none,
    GachaConfig_save.
  destruct (tbl_gacha db !! g) as [cols|] eqn:E; cbn.
  - rewrite E. cbn. rewrite lookup_insert_eq. repeat split.
    intros g' Hne. now apply lookup_insert_ne.
  - rewrite lookup_insert_eq. cbn. rewrite lookup_insert_eq. repeat split.
    intros g' Hne. now rewrite !lookup_insert_ne.
Qed.

(** [currency_names_edit] stores the two currency names in the guild's
    names row, created with the defaults if there was none, and keeps the
    five bullet names of the row as they were; on the stored record
    [currency_name] gives the singular for an amount of 1 and the plural
    for every other amount, 0 and negative amounts included. *)
Theorem currency_names_edit_stored (schema : Schema) (g : Z)
    (singular plural : string) (db : DB) :
  let before := default (default_names schema) (tbl_names db !! g) in
  let names := fst (currency_names_edit schema g singular plural db) in
  let db' := snd (currency_names_edit schema g singular plural db) in
  Names_get_or_none db' g = Some names
  /\ singular_currency_name names = singular
  /\ plural_currency_name names = plural
  /\ singular_bullet names = singular_bullet before
  /\ plural_bullet names = plural_bullet before
  /\ singular_truth_bullet_finder names = singular_truth_bullet_finder before
  /\ plural_truth_bullet_finder names = plural_truth_bullet_finder before
  /\ best_bullet_finder names = best_bullet_finder before
  /\ currency_name names 1 = singular
  /\ (forall amount, amount <> 1 -> currency_name names amount = plural)
  /\ forall g', g' <> g -> tbl_names db' !! g' = tbl_names db !! g'.
Proof.
  cbv zeta.
  unfold currency_names_edit, Names_get_or_create, Names_get_or_none, Names_save.
  assert (Hcn : forall (names : Names) amount, amount <> 1 ->
            currency_name names amount = plural_currency_name names).
  { intros names amount Hne. unfold currency_name.
    apply Z.eqb_neq in Hne. now rewrite Hne. }
  destruct (tbl_names db !! g) as [cols|] eqn:E; cbn.
  - rewrite E. cbn. rewrite lookup_insert_eq. repeat split.
    + intros amount Hne. now rewrite Hcn.
    + intros g' Hne. now apply lookup_insert_ne.
  - rewrite lookup_insert_eq. cbn. rewrite lookup_insert_eq. repeat split.
    + intros amount Hne. now rewrite Hcn.
    + intros g' Hne. now rewrite !lookup_insert_ne.
Qed.

End GetMethods.

(** ** The cached set against the bullet table *)

Section MsgEnabledExact.
Import Models BulletConfigCMDs.

Lemma exact_not_member (bot : THIABase) (g : Z) :
  msg_enabled_exact bot ->
  (forall b, tbl_bullets (db bot) !! g = Some b -> msg_enabled b = false) ->
  g ∉ msg_enabled_bullets_guilds bot.
Proof.
  intros Hexact Hrow Hin. apply Hexact in Hin as (b & Hb & Hen).
  rewrite (Hrow b Hb) in Hen. discriminate.
Qed.

Lemma exact_update (bot : THIABase) (guild : Z) (cols' : BulletCols)
    (db' : DB) (guilds' : gset Z) :
  msg_enabled_exact bot ->
  (forall g', tbl_bullets db' !! g'
              = if decide (guild = g') then Some cols'
                else tbl_bullets (db bot) !! g') ->
  (guild ∈ guilds' <-> msg_enabled cols' = true) ->
  (forall g', g' <> guild ->
     (g' ∈ guilds' <-> g' ∈ msg_enabled_bullets_guilds bot)) ->
  msg_enabled_exact {| db := db'; msg_enabled_bullets_guilds := guilds' |}.
Proof.
  intros Hexact Hlook Hguild Hother g'.
  cbn [db msg_enabled_bullets_guilds]. rewrite Hlook.
  destruct (decide (guild = g')) as [<-|Hne].
  - rewrite Hguild. split; [intros H; now exists cols'|].
    now intros (b & [= <-] & H).
  - rewrite Hother by congruence. apply Hexact.
Qed.

Lemma exact_grown (schema : Schema) (g : Z) (db0 db1 : DB) (guilds : gset Z) :
  msg_enabled (default_bullets schema) = false ->
  grown_at schema g (tbl_bullets db0) (tbl_bullets db1) ->
  msg_enabled_exact {| db := db0; msg_enabled_bullets_guilds := guilds |} ->
  msg_enabled_exact {| db := db1; msg_enabled_bullets_guilds := guilds |}.
Proof.
  intros Hdefault [Heq|[Hnone Heq]] Hexact g';
    specialize (Hexact g'); cbn [db msg_enabled_bullets_guilds] in *;
    rewrite Heq; [exact Hexact|].
  rewrite Hexact. destruct (decide (g = g')) as [<-|Hne].
  - rewrite lookup_insert_eq, Hnone. split.
    + now intros (b & [=] & _).
    + intros (b & [= <-] & Hen). congruence.
  - now rewrite lookup_insert_ne.
Qed.

Lemma unchanged_flags_exact (schema : Schema) (guild : Z)
    (f : BulletConfig -> BulletConfig) (bot : THIABase) :
  msg_enabled (default_bullets schema) = false ->
  (forall b, bullets_guild_id (f b) = bullets_guild_id b) ->
  (forall b, msg_enabled (f b) = msg_enabled b) ->
  msg_enabled_exact bot ->
  msg_enabled_exact
    {| db := BulletConfig_save
               (f (fst (BulletConfig_get_or_create schema (db bot) guild)))
               (snd (BulletConfig_get_or_create schema (db bot) guild));
       msg_enabled_bullets_guilds := msg_enabled_bullets_guilds bot |}.
Proof.
  intros Hdefault Hid Hflags Hexact.
  destruct (get_or_create_then_save schema (db bot) guild f Hid)
    as (cols & _ & Hcols & Hsave).
  apply (exact_update bot guild _ _ _ Hexact Hsave); [|tauto].
  rewrite (Hflags (Build_BulletConfig guild cols)). cbn [bullets_cols].
  rewrite (Hexact guild). destruct Hcols as [Hc|[Hc ->]]; rewrite Hc.
  - split; [now intros (b & [= <-] & H)|intros H; now exists cols].
  - rewrite Hdefault. split; [now intros (b & [=] & _)|discriminate].
Qed.

Lemma set_investigation_mode_exact (schema : Schema) (guild mode : Z)
    (bot : THIABase) :
  msg_enabled_exact bot ->
  msg_enabled_exact (snd (set_investigation_mode schema guild mode bot)).
Proof.
  intros Hexact. unfold set_investigation_mode.
  destruct (InvestigationType_of mode) as [it|]; [|exact Hexact].
  destruct (get_or_create_then_save schema (db bot) guild
              (fun b => with_investigation_type b it) (fun _ => eq_refl))
    as (cols & Hfst & Hcols & Hsave).
  destruct (BulletConfig_get_or_create schema (db bot) guild) as [b db1].
  cbn [fst snd] in *. subst b.
  apply (exact_update bot guild _ _ _ Hexact Hsave).
  - unfold msg_enabled. cbn [with_investigation_type bullets_cols
      bullets_enabled investigation_type].
    destruct it; cbn [is_command_only negb].
    + destruct (bullets_enabled cols) eqn:Hen; cbn [andb].
      * split; [reflexivity|intros _; apply elem_of_union_l, elem_of_singleton; reflexivity].
      * split; [|discriminate]. intros Hin. exfalso.
        revert Hin. apply exact_not_member; [exact Hexact|].
        intros b Hb. unfold msg_enabled.
        destruct Hcols as [Hc|[Hc _]]; [|congruence].
        rewrite Hc in Hb. injection Hb as <-. now rewrite Hen.
    + rewrite andb_false_r. split; [|discriminate].
      intros Hin. apply elem_of_difference in Hin as [_ Hin].
      exfalso. apply Hin. now apply elem_of_singleton.
  - intros g' Hne. destruct it; cbn [is_command_only].
    + destruct (bullets_enabled _); [|reflexivity].
      rewrite elem_of_union, elem_of_singleton. tauto.
    + rewrite elem_of_difference, elem_of_singleton. tauto.
Qed.

Lemma toggle_bullets_exact (schema : Schema) (guild : Z) (toggle : bool)
    (bot : THIABase) :
  msg_enabled (default_bullets schema) = false ->
  msg_enabled_exact bot ->
  msg_enabled_exact (snd (toggle_bullets schema guild toggle bot)).
Proof.
  intros Hdefault Hexact. unfold toggle_bullets.
  destruct (fetch_config schema (db bot) guild [inc_bullets]) as [r db1] eqn:Hf.
  apply fetch_config_bullets in Hf as [Hgrow Hret].
  assert (Hstop : msg_enabled_exact
            {| db := db1;
               msg_enabled_bullets_guilds := msg_enabled_bullets_guilds bot |}).
  { apply (exact_grown schema guild (db bot)); [exact Hdefault|exact Hgrow|].
    now destruct bot. }
  destruct r as [config|e]; [|exact Hstop].
  destruct (bullets config) as [b|] eqn:Hb; [|exact Hstop].
  destruct (Hret config b eq_refl Hb) as (Hg & Hlook & Htbl).
  destruct (if (negb (bullets_enabled b) && toggle)%bool
            then enable_check config else Return tt); [|exact Hstop].
  cbn [snd].
  apply (exact_update bot guild
           (bullets_cols (with_bullets_enabled b toggle)) _ _ Hexact).
  - intros g'. unfold BulletConfig_save.
    cbn [with_bullets_enabled bullets_guild_id].
    rewrite Htbl, Hg, Hlook. cbn [tbl_bullets]. apply lookup_insert.
  - unfold msg_enabled.
    cbn [with_bullets_enabled bullets_cols bullets_enabled investigation_type].
    destruct (investigation_type b) eqn:Hty; cbn [is_command_only negb].
    + rewrite andb_true_r. destruct toggle.
      * split; [reflexivity|intros _; apply elem_of_union_l, elem_of_singleton; reflexivity].
      * split; [|discriminate]. intros Hin.
        apply elem_of_difference in Hin as [_ Hin].
        exfalso. apply Hin. now apply elem_of_singleton.
    + rewrite andb_false_r. split; [|discriminate]. intros Hin. exfalso.
      revert Hin. apply exact_not_member; [exact Hexact|].
      intros b' Hb'. rewrite Hlook in Hb'. injection Hb' as <-.
      unfold msg_enabled. rewrite Hty. apply andb_false_r.
  - intros g' Hne.
    cbn [with_bullets_enabled bullets_cols investigation_type].
    destruct (negb _); [destruct toggle|]; [| |reflexivity].
    + rewrite elem_of_union, elem_of_singleton. tauto.
    + rewrite elem_of_difference, elem_of_singleton. tauto.
Qed.

Lemma fold_add_guilds_in (l : list BulletConfig) (acc : gset Z) (g : Z) :
  (g ∈ acc \/ exists m, In m l /\ bullets_guild_id m = g) ->
  g ∈ fold_left (fun acc model => {[bullets_guild_id model]} ∪ acc) l acc.
Proof.
  revert acc. induction l as [|m l IH]; intros acc H; cbn [fold_left].
  - destruct H as [H|(m & [] & _)]. exact H.
  - apply IH. destruct H as [H|(m' & [->|Hin] & Hm')].
    + left. now apply elem_of_union_r.
    + left. apply elem_of_union_l, elem_of_singleton. now symmetry.
    + right. now exists m'.
Qed.

Lemma start_exact (db0 : DB) : msg_enabled_exact (start db0).
Proof.
  intros g. cbn [start db msg_enabled_bullets_guilds]. split.
  - intros Hin. apply fold_add_guilds in Hin as [Hin|(m & Hin & <-)].
    { now apply not_elem_of_empty in Hin. }
    unfold find_many_msg_enabled in Hin. apply filter_In in Hin as [Hin Hp].
    apply list_elem_of_In, list_elem_of_fmap in Hin as ([k cols] & -> & Hin).
    apply elem_of_map_to_list in Hin. cbn in *. now exists cols.
  - intros (b & Hb & Hen). apply fold_add_guilds_in. right.
    exists (Build_BulletConfig g b). split; [|reflexivity].
    unfold find_many_msg_enabled. apply filter_In. split; [|exact Hen].
    apply list_elem_of_In, list_elem_of_fmap. exists (g, b).
    split; [reflexivity|]. now apply elem_of_map_to_list.
Qed.

(** When a freshly created bullet configuration is not message-enabled,
    the cached set is exact: after start-up and any sequence of the four
    commands that write a bullet configuration (mode, toggle, channel, best
    finder), whatever their outcomes, a guild is in the set if and only if
    its stored configuration is enabled and not command-only. *)
Theorem msg_enabled_guilds_exact (schema : Schema) :
  msg_enabled (default_bullets schema) = false ->
  (forall db0, msg_enabled_exact (start db0))
  /\ (forall c bot,
        msg_enabled_exact bot -> msg_enabled_exact (run_config schema c bot))
  /\ (forall db0 cmds,
        msg_enabled_exact
          (fold_left (fun bot c => run_config schema c bot) cmds (start db0))).
Proof.
  intros Hdefault.
  assert (Hstep : forall c bot,
            msg_enabled_exact bot ->
            msg_enabled_exact (run_config schema c bot)).
  { intros [guild mode|guild toggle|guild channel unset|guild role unset] bot
      Hexact; cbn [run_config].
    - now apply set_investigation_mode_exact.
    - now apply toggle_bullets_exact.
    - unfold set_bullet_channel.
      destruct (negb (xorb _ unset)); [exact Hexact|].
      destruct (match channel with Some c => _ | None => _ end);
        [exact Hexact|].
      pose proof (unchanged_flags_exact schema guild
                    (fun b => with_bullet_chan_id b (channel_id <$> channel))
                    bot Hdefault (fun _ => eq_refl) (fun _ => eq_refl) Hexact)
        as H.
      now destruct (BulletConfig_get_or_create schema (db bot) guild).
    - unfold set_best_truth_bullet_finder_role.
      destruct (negb (xorb _ unset)); [exact Hexact|].
      pose proof (unchanged_flags_exact schema guild
                    (fun b => with_best_bullet_finder_role b role)
                    bot Hdefault (fun _ => eq_refl) (fun _ => eq_refl) Hexact)
        as H.
      now destruct (BulletConfig_get_or_create schema (db bot) guild). }
  split; [exact start_exact|]. split; [exact Hstep|].
  intros db0 cmds. generalize (start_exact db0). generalize (start db0).
  induction cmds as [|c cmds IH]; intros bot Hexact; [exact Hexact|].
  cbn [fold_left]. apply IH. now apply Hstep.
Qed.

Lemma msg_enabled_guilds_exact_witness :
  (forall db0, msg_enabled_exact (start db0))
  /\ (forall c bot,
        msg_enabled_exact bot ->
        msg_enabled_exact (run_config example_schema c bot))
  /\ (forall db0 cmds,
        msg_enabled_exact
          (fold_left (fun bot c => run_config example_schema c bot) cmds
             (start db0))).
Proof. apply msg_enabled_guilds_exact. reflexivity. Defined.

End MsgEnabledExact.

(** ** The commands on the bullet configuration *)

Section BulletCommands.
Import Models BulletConfigCMDs.

Lemma THIABase_eta (bot : THIABase) :
  {| db := db bot;
     msg_enabled_bullets_guilds := msg_enabled_bullets_guilds bot |} = bot.
Proof. now destruct bot. Qed.

Lemma fetch_config_existing (schema : Schema) (db0 : DB) (g : Z)
    (root : GuildCols) (b : BulletCols) :
  tbl_guildconfig db0 !! g = Some root ->
  tbl_bullets db0 !! g = Some b ->
  fetch_config schema db0 g [inc_bullets]
  = (Return {| guild_id := g; guild_cols := root; names := None;
               bullets := Some (Build_BulletConfig g b); gacha := None |},
     db0).
Proof.
  intros Hroot Hb. unfold fetch_config, get_or_create, find_unique.
  rewrite Hroot, Hb. reflexivity.
Qed.

(** Turning the bullets on for a guild that has its records and has them
    off: with a player role and an investigation channel set, the command
    returns, the stored configuration is enabled, and under the default
    mode the guild enters the set; with either missing it raises a check
    failure and nothing changes. *)
Theorem toggle_bullets_enable_check (schema : Schema) (guild : Z)
    (bot : THIABase) (root : GuildCols) (b : BulletCols) :
  tbl_guildconfig (db bot) !! guild = Some root ->
  tbl_bullets (db bot) !! guild = Some b ->
  bullets_enabled b = false ->
  let r := toggle_bullets schema guild true bot in
  if (truthy (player_role root) && truthy (bullet_chan_id b))%bool then
    fst r = Return tt
    /\ tbl_bullets (db (snd r)) !! guild
       = Some (bullets_cols
                 (with_bullets_enabled (Build_BulletConfig guild b) true))
    /\ (investigation_type b = DEFAULT ->
        guild ∈ msg_enabled_bullets_guilds (snd r))
    /\ (investigation_type b = COMMAND_ONLY ->
        msg_enabled_bullets_guilds (snd r) = msg_enabled_bullets_guilds bot)
  else
    (exists msg, fst r = Raise (CustomCheckFailure msg)) /\ snd r = bot.
Proof.
  intros Hroot Hb Hoff. cbv zeta. unfold toggle_bullets.
  rewrite (fetch_config_existing schema (db bot) guild root b Hroot Hb).
  cbn [bullets bullets_cols]. rewrite Hoff. cbn [negb andb].
  unfold enable_check. cbn [guild_cols bullets bullets_cols].
  destruct (truthy (player_role root)); cbn [negb andb].
  - destruct (truthy (bullet_chan_id b)); cbn [negb fst snd].
    + split; [reflexivity|]. unfold BulletConfig_save.
      cbn [with_bullets_enabled bullets_guild_id bullets_cols
             investigation_type db msg_enabled_bullets_guilds].
      rewrite Hb. cbn [tbl_bullets]. rewrite lookup_insert_eq.
      split; [reflexivity|]. split.
      * intros ->. cbn. apply elem_of_union_l. now apply elem_of_singleton.
      * intros ->. reflexivity.
    + split; [now eexists|apply THIABase_eta].
  - cbn [fst snd]. split; [now eexists|apply THIABase_eta].
Qed.

Lemma toggle_bullets_enable_check_witness :
  let bot :=
    {| db := {| tbl_guildconfig := {[ 1 := {| player_role := Some 5 |} ]};
                tbl_names := ∅;
                tbl_bullets :=
                  {[ 1 := {| bullet_chan_id := Some 9;
                             best_bullet_finder_role := None;
                             bullets_enabled := false;
                             investigation_type := DEFAULT |} ]};
                tbl_gacha := ∅ |};
       msg_enabled_bullets_guilds := ∅ |} in
  fst (toggle_bullets example_schema 1 true bot) = Return tt
  /\ 1 ∈ msg_enabled_bullets_guilds (snd (toggle_bullets example_schema 1 true bot)).
Proof.
  cbv zeta.
  match goal with
  | |- context [toggle_bullets example_schema 1 true ?bot] =>
      pose proof (toggle_bullets_enable_check example_schema 1 bot
                    {| player_role := Some 5 |}
                    {| bullet_chan_id := Some 9;
                       best_bullet_finder_role := None;
                       bullets_enabled := false;
                       investigation_type := DEFAULT |}
                    eq_refl eq_refl eq_refl) as H
  end.
  cbv zeta in H. cbn [truthy player_role bullet_chan_id Z.eqb negb andb] in H.
  destruct H as (H1 & _ & H3 & _). split; [exact H1|apply H3; reflexivity].
Defined.

(** [set_investigation_mode]: a mode that is not one of the two values
    raises and changes nothing; otherwise the mode is stored in the guild's
    configuration, created with the defaults if there was none, its other
    columns are kept, other guilds' rows are untouched, and under
    command-only the guild is out of the set. *)
Theorem set_investigation_mode_stored (schema : Schema) (guild mode : Z)
    (bot : THIABase) :
  let r := set_investigation_mode schema guild mode bot in
  let before := default (default_bullets schema) (tbl_bullets (db bot) !! guild) in
  match InvestigationType_of mode with
  | None => r = (Raise (BadArgument "Invalid investigation mode."), bot)
  | Some it =>
      mode = InvestigationType_value it
      /\ fst r = Return tt
      /\ tbl_bullets (db (snd r)) !! guild
         = Some {| bullet_chan_id := bullet_chan_id before;
                   best_bullet_finder_role := best_bullet_finder_role before;
                   bullets_enabled := bullets_enabled before;
                   investigation_type := it |}
      /\ (forall g', g' <> guild ->
            tbl_bullets (db (snd r)) !! g' = tbl_bullets (db bot) !! g')
      /\ (it = COMMAND_ONLY -> guild ∉ msg_enabled_bullets_guilds (snd r))
  end.
Proof.
  cbv zeta. unfold set_investigation_mode.
  destruct (InvestigationType_of mode) as [it|] eqn:Hmode; [|reflexivity].
  assert (Hval : mode = InvestigationType_value it).
  { unfold InvestigationType_of in Hmode.
    destruct (Z.eqb_spec mode 1) as [->|_]; [now injection Hmode as <-|].
    destruct (Z.eqb_spec mode 2) as [->|_]; [now injection Hmode as <-|].
    discriminate. }
  destruct (get_or_create_then_save schema (db bot) guild
              (fun b => with_investigation_type b it) (fun _ => eq_refl))
    as (cols & Hfst & Hcols & Hsave).
  destruct (BulletConfig_get_or_create schema (db bot) guild) as [b db1].
  cbn [fst snd db msg_enabled_bullets_guilds] in *. subst b.
  split; [exact Hval|]. split; [reflexivity|]. split; [|split].
  - rewrite Hsave. destruct (decide (guild = guild)); [|congruence].
    destruct Hcols as [->|[-> ->]]; reflexivity.
  - intros g' Hne. rewrite Hsave.
    destruct (decide (guild = g')); [congruence|reflexivity].
  - intros ->. cbn [is_command_only]. intros Hin.
    apply elem_of_difference in Hin as [_ Hin]. apply Hin.
    now apply elem_of_singleton.
Qed.

(** [set_bullet_channel] returns exactly when either a sendable channel is
    given and [unset] is false, or no channel is given and [unset] is true;
    otherwise it raises and changes nothing. When it returns, the channel
    stored is the one given (none when unsetting), and the enabled flag,
    the mode and the set are as before: unsetting the channel of a guild
    whose bullets are on leaves them on. *)
Theorem set_bullet_channel_stored (schema : Schema) (guild : Z)
    (channel : option GuildText) (unset : bool) (bot : THIABase) :
  let r := set_bullet_channel schema guild channel unset bot in
  let before := default (default_bullets schema) (tbl_bullets (db bot) !! guild) in
  (fst r = Return tt
   <-> (channel = None /\ unset = true)
       \/ (exists c, channel = Some c /\ unset = false
                     /\ is_send_mixin c = true))
  /\ (forall e, fst r = Raise e -> snd r = bot)
  /\ (fst r = Return tt ->
      tbl_bullets (db (snd r)) !! guild
      = Some {| bullet_chan_id := channel_id <$> channel;
                best_bullet_finder_role := best_bullet_finder_role before;
                bullets_enabled := bullets_enabled before;
                investigation_type := investigation_type before |}
      /\ msg_enabled_bullets_guilds (snd r) = msg_enabled_bullets_guilds bot).
Proof.
  cbv zeta. unfold set_bullet_channel.
  destruct channel as [c|], unset; cbn [xorb negb fst snd];
    rewrite ?bool_decide_eq_true_2 by (now eexists);
    rewrite ?bool_decide_eq_false_2 by (now intros [? ?]);
    cbn [xorb negb fst snd].
  - split; [|split; [reflexivity|discriminate]].
    split; [discriminate|]. intros [[[=] _]|(c' & _ & [=] & _)].
  - destruct (is_send_mixin c) eqn:Hs; cbn [negb fst snd].
    + destruct (get_or_create_then_save schema (db bot) guild
                  (fun b => with_bullet_chan_id b (Some (channel_id c)))
                  (fun _ => eq_refl)) as (cols & Hfst & Hcols & Hsave).
      destruct (BulletConfig_get_or_create schema (db bot) guild) as [b db1].
      cbn [fst snd db msg_enabled_bullets_guilds] in *. subst b.
      split; [split; [intros _; right; now exists c|reflexivity]|].
      split; [discriminate|]. intros _. split; [|reflexivity].
      rewrite Hsave. destruct (decide (guild = guild)); [|congruence].
      destruct Hcols as [->|[-> ->]]; reflexivity.
    + split; [|split; [reflexivity|discriminate]].
      split; [discriminate|].
      intros [[[=] _]|(c' & [= <-] & _ & Hc')]. congruence.
  - destruct (get_or_create_then_save schema (db bot) guild
                (fun b => with_bullet_chan_id b None)
                (fun _ => eq_refl)) as (cols & Hfst & Hcols & Hsave).
    destruct (BulletConfig_get_or_create schema (db bot) guild) as [b db1].
    cbn [fst snd db msg_enabled_bullets_guilds] in *. subst b.
    split; [split; [intros _; now left|reflexivity]|].
    split; [discriminate|]. intros _. split; [|reflexivity].
    rewrite Hsave. destruct (decide (guild = guild)); [|congruence].
    destruct Hcols as [->|[-> ->]]; reflexivity.
  - split; [|split; [reflexivity|discriminate]].
    split; [discriminate|]. intros [[_ [=]]|(c' & [=] & _)].
Qed.

End BulletCommands.

(** ** Player keys *)

Section PlayerKeys.
Import GachaManagement.

Lemma is_digit_pretty_N_char (d : N) : is_digit (pretty_N_char d) = true.
Proof. unfold pretty_N_char. repeat case_match; reflexivity. Qed.

Lemma pretty_N_go_digits (x : N) (s : string) :
  all_digits s = true -> s <> EmptyString ->
  all_digits (pretty_N_go x s) = true /\ pretty_N_go x s <> EmptyString.
Proof.
  revert s. induction (N.lt_wf_0 x) as [x _ IH]; intros s Hs Hne.
  destruct (decide (x = 0%N)) as [->|Hx].
  - now rewrite pretty_N_go_0.
  - rewrite pretty_N_go_step by lia. apply IH.
    + apply N.div_lt; lia.
    + cbn [all_digits]. now rewrite is_digit_pretty_N_char, Hs.
    + discriminate.
Qed.

Lemma pretty_N_digits (x : N) :
  all_digits (pretty x) = true /\ pretty x <> EmptyString.
Proof.
  unfold pretty, pretty_N. destruct (decide (x = 0%N)) as [->|Hx].
  - split; [reflexivity|discriminate].
  - rewrite pretty_N_go_step by lia. apply pretty_N_go_digits.
    + cbn [all_digits]. now rewrite is_digit_pretty_N_char.
    + discriminate.
Qed.

(** The decimal form of an integer: digits, after a minus sign when it is
    negative. *)
Lemma pretty_Z_shape (z : Z) :
  exists d, all_digits d = true /\ d <> EmptyString
            /\ (pretty z = d \/ pretty z = String "-" d).
Proof.
  destruct z as [|p|p].
  - exists "0". repeat split; [discriminate|now left].
  - exists (pretty (Npos p)). destruct (pretty_N_digits (Npos p)).
    repeat split; try assumption. now left.
  - exists (pretty (Npos p)). destruct (pretty_N_digits (Npos p)).
    repeat split; try assumption. now right.
Qed.

Lemma digits_dash_split (d d' r r' : string) :
  all_digits d = true -> all_digits d' = true ->
  d +:+ String "-" r = d' +:+ String "-" r' -> d = d' /\ r = r'.
Proof.
  revert d'. induction d as [|c d IH]; intros [|c' d'] Hd Hd' Heq.
  - rewrite !append_nil in Heq. now injection Heq.
  - rewrite append_nil, append_cons in Heq. injection Heq as <- _.
    cbn in Hd'. discriminate.
  - rewrite append_nil, append_cons in Heq. injection Heq as -> _.
    cbn in Hd. discriminate.
  - rewrite !append_cons in Heq. injection Heq as <- Heq.
    cbn [all_digits] in Hd, Hd'.
    apply andb_prop in Hd as [_ Hd]. apply andb_prop in Hd' as [_ Hd'].
    destruct (IH d' Hd Hd' Heq) as [-> ->]. now split.
Qed.

Lemma digits_head (d : string) :
  all_digits d = true -> d <> EmptyString ->
  exists c d', d = String c d' /\ is_digit c = true.
Proof.
  destruct d as [|c d']; [congruence|]. intros H _. cbn in H.
  apply andb_prop in H as [Hc _]. now exists c, d'.
Qed.

Lemma user_guild_id_inj (g u g' u' : Z) :
  user_guild_id g u = user_guild_id g' u' -> g = g' /\ u = u'.
Proof.
  unfold user_guild_id. intros Heq.
  change (pretty g +:+ String "-" (pretty u)
          = pretty g' +:+ String "-" (pretty u')) in Heq.
  destruct (pretty_Z_shape g) as (d & Hd & Hne & Hg).
  destruct (pretty_Z_shape g') as (d' & Hd' & Hne' & Hg').
  assert (Hsplit : pretty g = pretty g' /\ pretty u = pretty u').
  { destruct Hg as [Hg|Hg], Hg' as [Hg'|Hg']; rewrite Hg, Hg' in Heq |- *.
    - destruct (digits_dash_split _ _ _ _ Hd Hd' Heq) as [-> ->]. now split.
    - destruct (digits_head d Hd Hne) as (c & d0 & -> & Hc).
      rewrite !append_cons in Heq. injection Heq as -> _. discriminate.
    - destruct (digits_head d' Hd' Hne') as (c & d0 & -> & Hc).
      rewrite !append_cons in Heq. injection Heq as <- _. discriminate.
    - rewrite !append_cons in Heq. injection Heq as Heq.
      destruct (digits_dash_split _ _ _ _ Hd Hd' Heq) as [-> ->]. now split. }
  destruct Hsplit as [H1 H2].
  split; now apply (inj pretty).
Qed.

(** Two players have the same key only if they are the same user of the
    same guild: the key [guild-user] is read back in one way only, also for
    negative numbers. *)
Theorem user_guild_id_same_iff (g u g' u' : Z) :
  user_guild_id g u = user_guild_id g' u' <-> g = g' /\ u = u'.
Proof.
  split; [apply user_guild_id_inj|]. now intros [-> ->].
Qed.

End PlayerKeys.

(** ** More on the ledger *)

Section LedgerMore.
Import Models GachaManagement.

Lemma key_ne (g u g' u' : Z) :
  g <> g' \/ u <> u' -> user_guild_id g' u' <> user_guild_id g u.
Proof.
  intros Hne Heq. apply user_guild_id_inj in Heq as [-> ->].
  destruct Hne; congruence.
Qed.

(** A grant, a debit or a reset for one player leaves the balance of every
    other player, of the same guild or another, as it was. *)
Theorem ledger_other_players (g u g' u' amount : Z) (players : gmap string Z) :
  g <> g' \/ u <> u' ->
  snd (grant g u amount players) !! user_guild_id g' u'
  = players !! user_guild_id g' u'
  /\ snd (debit g u amount players) !! user_guild_id g' u'
     = players !! user_guild_id g' u'
  /\ snd (reset_if_positive g u players) !! user_guild_id g' u'
     = players !! user_guild_id g' u'.
Proof.
  intros Hne. pose proof (key_ne g u g' u' Hne) as Hk.
  split; [apply (proj2 (upsert_lookup _ _ _ _)), Hk|].
  split; [apply (proj2 (upsert_lookup _ _ _ _)), Hk|].
  unfold reset_if_positive.
  destruct (players !! user_guild_id g u) as [cur|]; [|reflexivity].
  destruct (Z.ltb 0 cur); [|reflexivity].
  cbn [snd]. apply lookup_insert_ne. congruence.
Qed.

Lemma ledger_other_players_witness :
  snd (grant 1 2 10 {[ user_guild_id 1 12 := 3 ]}) !! user_guild_id 1 12
  = ({[ user_guild_id 1 12 := 3 ]} : gmap string Z) !! user_guild_id 1 12
  /\ snd (debit 1 2 10 {[ user_guild_id 1 12 := 3 ]}) !! user_guild_id 1 12
     = ({[ user_guild_id 1 12 := 3 ]} : gmap string Z) !! user_guild_id 1 12
  /\ snd (reset_if_positive 1 2 {[ user_guild_id 1 12 := 3 ]})
       !! user_guild_id 1 12
     = ({[ user_guild_id 1 12 := 3 ]} : gmap string Z) !! user_guild_id 1 12.
Proof. apply ledger_other_players. right. discriminate. Defined.

Lemma grant_snd (g u amount : Z) (players : gmap string Z) :
  snd (grant g u amount players)
  = <[user_guild_id g u := default 0 (players !! user_guild_id g u) + amount]>
      players.
Proof.
  unfold grant, upsert. destruct (players !! user_guild_id g u) as [cur|];
    cbn; f_equal; lia.
Qed.

(** Grants to one player add up: two grants in a row leave the table that
    one grant of the sum leaves, in either order, the first creating the
    row when the player had none. *)
Theorem grants_add_up (g u a b : Z) (players : gmap string Z) :
  snd (grant g u b (snd (grant g u a players)))
  = snd (grant g u (a + b) players)
  /\ snd (grant g u b (snd (grant g u a players)))
     = snd (grant g u a (snd (grant g u b players)))
  /\ fst (grant g u b (snd (grant g u a players)))
     = default 0 (players !! user_guild_id g u) + a + b.
Proof.
  assert (H : forall x y,
            snd (grant g u y (snd (grant g u x players)))
            = <[user_guild_id g u
                := default 0 (players !! user_guild_id g u) + (x + y)]> players).
  { intros x y. rewrite (grant_snd g u y), (grant_snd g u x).
    rewrite lookup_insert_eq, insert_insert_eq. cbn. f_equal. lia. }
  split; [|split].
  - rewrite H. symmetry. apply grant_snd.
  - rewrite !H. f_equal. lia.
  - rewrite (proj1 (grant_balance g u b _)), grant_snd, lookup_insert_eq.
    reflexivity.
Qed.

(** On a player who has a row, a debit followed by a grant of the same
    amount, like a grant followed by the debit, brings the balance back to
    what it was; in between, a debit larger than the balance leaves it
    negative. *)
Theorem debit_then_grant_restores (g u amount current : Z)
    (players : gmap string Z) :
  players !! user_guild_id g u = Some current ->
  fst (debit g u amount players) = current - amount
  /\ fst (grant g u amount (snd (debit g u amount players))) = current
  /\ snd (grant g u amount (snd (debit g u amount players))) = players
  /\ snd (debit g u amount (snd (grant g u amount players))) = players.
Proof.
  intros Hrow. unfold grant, debit, upsert. rewrite Hrow. cbn.
  rewrite !lookup_insert_eq. cbn. rewrite !insert_insert_eq.
  replace (current - amount + amount) with current by lia.
  replace (current + amount - amount) with current by lia.
  repeat split; now apply insert_id.
Qed.

Lemma debit_then_grant_restores_witness :
  fst (debit 1 2 10 {[ user_guild_id 1 2 := 4 ]}) = 4 - 10
  /\ fst (grant 1 2 10 (snd (debit 1 2 10 {[ user_guild_id 1 2 := 4 ]}))) = 4
  /\ snd (grant 1 2 10 (snd (debit 1 2 10 {[ user_guild_id 1 2 := 4 ]})))
     = {[ user_guild_id 1 2 := 4 ]}
  /\ snd (debit 1 2 10 (snd (grant 1 2 10 {[ user_guild_id 1 2 := 4 ]})))
     = {[ user_guild_id 1 2 := 4 ]}.
Proof. apply debit_then_grant_restores. apply lookup_singleton_eq. Defined.

(** A reset never creates a row and never raises a balance; after it the
    player's balance, if there is one, is at most 0, and a second reset
    counts no row, so that the command then raises. *)
Theorem reset_if_positive_again (g u : Z) (players : gmap string Z) :
  let once := snd (reset_if_positive g u players) in
  reset_if_positive g u once = (0, once)
  /\ (players !! user_guild_id g u = None -> once = players)
  /\ (forall current, once !! user_guild_id g u = Some current -> current <= 0)
  /\ (forall current, players !! user_guild_id g u = Some current ->
        once !! user_guild_id g u = Some (Z.min current 0)).
Proof.
  cbv zeta. unfold reset_if_positive.
  destruct (players !! user_guild_id g u) as [cur|] eqn:E.
  - destruct (Z.ltb_spec 0 cur) as [Hpos|Hle]; cbn [snd].
    + rewrite lookup_insert_eq. cbn. repeat split; try discriminate.
      * intros c [= <-]. lia.
      * intros c [= <-]. f_equal. lia.
    + rewrite E. destruct (Z.ltb_spec 0 cur); [lia|].
      repeat split; try discriminate.
      * intros c [= <-]. lia.
      * intros c [= <-]. f_equal. lia.
  - cbn [snd]. rewrite E. repeat split; discriminate.
Qed.

(** [gacha_give] raises before it touches the table when the player role
    is not set or the user lacks it. Once both checks pass the grant is
    made; the reply is written after it, so with [config.names] absent the
    command raises although the balance has changed. *)
Theorem gacha_give_outcomes (config : GuildConfig) (g : Z) (user : Member)
    (amount : Z) (players : gmap string Z) :
  let r := gacha_give config g user amount players in
  let granted := grant g (member_id user) amount players in
  (truthy (player_role config) = false ->
   exists msg, r = (Raise (CustomCheckFailure msg), players))
  /\ (truthy (player_role config) = true ->
      has_role user (player_role config) = false ->
      exists msg, r = (Raise (BadArgument msg), players))
  /\ (truthy (player_role config) = true ->
      has_role user (player_role config) = true ->
      snd r = snd granted
      /\ (names config = None -> fst r = Raise AttributeError)
      /\ (is_Some (names config) -> fst r = Return (fst granted))).
Proof.
  cbv zeta. unfold gacha_give, player_checks.
  destruct (truthy (player_role config)); cbn [negb].
  - split; [discriminate|].
    destruct (has_role user (player_role config)); cbn [negb].
    + split; [discriminate|]. intros _ _.
      destruct (grant g (member_id user) amount players) as [total p].
      cbn [fst snd]. unfold reply_total. split; [reflexivity|].
      destruct (names config); split; try discriminate; try reflexivity.
      now intros [? ?].
    + split; [intros _ _; now eexists|discriminate].
  - split; [intros _; now eexists|]. split; discriminate.
Qed.

Lemma fold_grant_lookup (g amount : Z) (members : list Member)
    (players : gmap string Z) :
  NoDup (member_id <$> members) ->
  let players' :=
    fold_left
      (fun batch member => snd (grant g (member_id member) amount batch))
      members players in
  (forall m, In m members ->
     players' !! user_guild_id g (member_id m)
     = Some (default 0 (players !! user_guild_id g (member_id m)) + amount))
  /\ (forall g' u',
        (g' <> g \/ forall m, In m members -> member_id m <> u') ->
        players' !! user_guild_id g' u' = players !! user_guild_id g' u').
Proof.
  cbv zeta. revert players.
  induction members as [|m0 members IH]; intros players Hnd.
  - split; [intros m []|reflexivity].
  - cbn [fmap list_fmap] in Hnd. apply NoDup_cons in Hnd as [Hfresh Hnd].
    cbn [fold_left]. destruct (IH (snd (grant g (member_id m0) amount players)) Hnd)
      as [IHin IHout].
    split.
    + intros m [<-|Hin].
      * rewrite IHout.
        -- apply grant_balance.
        -- right. intros m' Hm' Heq. apply Hfresh.
           apply list_elem_of_fmap. exists m'.
           split; [now symmetry|now apply list_elem_of_In].
      * rewrite (IHin m Hin). f_equal. f_equal.
        rewrite grant_snd, lookup_insert_ne; [reflexivity|].
        apply key_ne. right. intros Heq. apply Hfresh.
        apply list_elem_of_fmap. exists m.
        split; [now symmetry|now apply list_elem_of_In].
    + intros g' u' Hout. rewrite IHout.
      * rewrite grant_snd. apply lookup_insert_ne.
        apply not_eq_sym, key_ne.
        destruct Hout as [Hg|Hu]; [now left|right]. apply Hu. now left.
      * destruct Hout as [Hg|Hu]; [now left|right].
        intros m Hm. apply Hu. now right.
Qed.

(** [gacha_give_all], the player role being set and found with members of
    distinct ids: every member's balance goes up by the amount, from 0 for
    a member without a row; no other player's balance changes; and the
    command returns if [config.names] is there and raises otherwise, the
    batch being committed in both cases. *)
Theorem gacha_give_all_balances (config : GuildConfig) (g : Z)
    (members : list Member) (amount : Z) (players : gmap string Z) :
  truthy (player_role config) = true ->
  NoDup (member_id <$> members) ->
  let r := gacha_give_all config g (Some members) amount players in
  (forall m, In m members ->
     snd r !! user_guild_id g (member_id m)
     = Some (default 0 (players !! user_guild_id g (member_id m)) + amount))
  /\ (forall g' u',
        (g' <> g \/ forall m, In m members -> member_id m <> u') ->
        snd r !! user_guild_id g' u' = players !! user_guild_id g' u')
  /\ (fst r = Return tt <-> is_Some (names config))
  /\ (names config = None -> fst r = Raise AttributeError).
Proof.
  intros Hrole Hnd. cbv zeta. unfold gacha_give_all. rewrite Hrole.
  cbn [negb]. destruct (fold_grant_lookup g amount members players Hnd)
    as [Hin Hout].
  destruct (names config) as [n|]; cbn [fst snd].
  - repeat split; try assumption; try discriminate. now eexists.
  - repeat split; try assumption; try discriminate. now intros [? ?].
Qed.

Lemma gacha_give_all_balances_witness :
  let config :=
    {| guild_id := 1; guild_cols := {| player_role := Some 5 |};
       names := None; bullets := None; gacha := None |} in
  let members := [ {| member_id := 2; member_roles := [5] |};
                   {| member_id := 3; member_roles := [5] |} ] in
  let players : gmap string Z := {[ user_guild_id 1 2 := 4 ]} in
  let r := gacha_give_all config 1 (Some members) 10 players in
  (forall m, In m members ->
     snd r !! user_guild_id 1 (member_id m)
     = Some (default 0 (players !! user_guild_id 1 (member_id m)) + 10))
  /\ (forall g' u',
        (g' <> 1 \/ forall m, In m members -> member_id m <> u') ->
        snd r !! user_guild_id g' u' = players !! user_guild_id g' u')
  /\ (fst r = Return tt <-> is_Some (names config))
  /\ (names config = None -> fst r = Raise AttributeError).
Proof.
  cbv zeta. apply gacha_give_all_balances; [reflexivity|].
  apply (bool_decide_unpack _). vm_compute. exact I.
Defined.

End LedgerMore.

(** ** More on the item catalogue *)

Section CatalogueMore.
Import Models GachaManagement.

Lemma substring_take (n : nat) (s : string) :
  exists tail,
    s = substring 0 n s +:+ tail
    /\ String.length (substring 0 n s) = Nat.min n (String.length s).
Proof.
  revert s. induction n as [|n IH]; intros [|c s].
  - now exists EmptyString.
  - now exists (String c s).
  - now exists EmptyString.
  - destruct (IH s) as (tail & Hs & Hlen). exists tail. cbn [substring].
    rewrite append_cons. split; [now f_equal|].
    cbn [String.length]. now rewrite Hlen.
Qed.

Lemma length_append (a b : string) :
  String.length (a +:+ b) = (String.length a + String.length b)%nat.
Proof.
  induction a as [|c a IH]; [reflexivity|].
  rewrite append_cons. cbn [String.length]. now rewrite IH.
Qed.

(** [short_desc] never returns more than 25 characters: a description of
    at most 25 characters is returned as it is, a longer one is cut to its
    first 22 characters followed by three dots. *)
Theorem short_desc_length (description : string) :
  String.length (short_desc description)
  = Nat.min (String.length description) 25
  /\ ((String.length description <= 25)%nat ->
      short_desc description = description)
  /\ ((25 < String.length description)%nat ->
      exists head tail,
        description = head +:+ tail /\ String.length head = 22%nat
        /\ short_desc description = head +:+ "...").
Proof.
  unfold short_desc.
  destruct (substring_take 22 description) as (tail & Hs & Hlen).
  destruct (Nat.ltb_spec 25 (String.length description)) as [Hlong|Hshort].
  - split; [|split; [lia|]].
    + rewrite length_append, Hlen. cbn [String.length]. lia.
    + intros _. exists (substring 0 22 description), tail.
      split; [exact Hs|]. split; [lia|reflexivity].
  - split; [lia|]. split; [reflexivity|lia].
Qed.

Lemma filter_all {A : Type} (f : A -> bool) (l : list A) :
  (forall x, In x l -> f x = true) -> List.filter f l = l.
Proof.
  induction l as [|a l IH]; intros H; [reflexivity|].
  cbn [List.filter]. rewrite (H a) by now left.
  f_equal. apply IH. intros x Hx. apply H. now right.
Qed.

Lemma named_in_eqb (g : Z) (n : string) (it : GachaItem) :
  (Z.eqb (item_guild_id it) g && String.eqb (name it) n)%bool = true
  <-> item_guild_id it = g /\ name it = n.
Proof. now rewrite andb_true_iff, Z.eqb_eq, String.eqb_eq. Qed.

(** [gacha_item_remove] returns exactly when the guild had an item of the
    name, and raises otherwise, leaving the items as they were. After it
    no item of the guild has the name (a second removal raises), and the
    items left are the other items, in their order. *)
Theorem gacha_item_remove_removes (g : Z) (n : string)
    (items : list GachaItem) :
  let r := gacha_item_remove g n items in
  (fst r = Return tt <-> named_in g n items)
  /\ (forall e, fst r = Raise e -> snd r = items)
  /\ ~ named_in g n (snd r)
  /\ (forall it, In it (snd r)
                 <-> In it items /\ ~ (item_guild_id it = g /\ name it = n))
  /\ fst (gacha_item_remove g n (snd r))
     = Raise (BadArgument "No item with that name exists.").
Proof.
  cbv zeta. unfold gacha_item_remove, delete_many.
  set (left_ := List.filter _ items).
  assert (Hleft : forall it, In it left_
            <-> In it items /\ ~ (item_guild_id it = g /\ name it = n)).
  { intros it. unfold left_. rewrite filter_In, negb_true_iff.
    rewrite <- named_in_eqb, not_true_iff_false. reflexivity. }
  assert (Hnone : ~ named_in g n left_).
  { intros (it & Hin & Hg & Hn). apply Hleft in Hin as [_ Hin]. tauto. }
  assert (Hcount : forall l, Z.leb (count g n l) 0 = negb (Z.ltb 0 (count g n l))).
  { intros l. rewrite Z.ltb_antisym. now rewrite negb_involutive. }
  rewrite !Hcount.
  destruct (Z.ltb 0 (count g n items)) eqn:Hc; cbn [negb fst snd].
  - apply count_positive in Hc.
    split; [tauto|]. split; [discriminate|]. split; [exact Hnone|].
    split; [exact Hleft|].
    destruct (Z.ltb 0 (count g n left_)) eqn:Hc'; [|reflexivity].
    apply count_positive in Hc'. contradiction.
  - assert (Hno : ~ named_in g n items).
    { intros H. apply count_positive in H. congruence. }
    assert (Hsame : left_ = items).
    { apply filter_all. intros it Hin. apply negb_true_iff.
      apply not_true_iff_false. rewrite named_in_eqb. intros [Hg Hn].
      apply Hno. now exists it. }
    split; [split; [discriminate|tauto]|]. split; [now intros _ _|].
    split; [exact Hnone|]. split; [exact Hleft|].
    rewrite Hsame, Hc. reflexivity.
Qed.

(** Adding an item under a name the guild does not have yet and then
    removing that name gives back the items as they were. *)
Theorem add_then_remove_restores (int : string -> option Z) (g : Z)
    (kwargs : ModalKwargs) (items : list GachaItem) :
  fst (add_gacha_item_modal int g kwargs items) = Return tt ->
  gacha_item_remove g (item_name kwargs)
    (snd (add_gacha_item_modal int g kwargs items))
  = (Return tt, items).
Proof.
  unfold add_gacha_item_modal. cbv zeta.
  destruct (Z.ltb 0 (count g (item_name kwargs) items)) eqn:Hc;
    [discriminate|].
  destruct (int _) as [amount|]; [|discriminate].
  destruct (Z.ltb amount (-1)); [discriminate|]. intros _. cbn [snd].
  assert (Hno : ~ named_in g (item_name kwargs) items).
  { intros H. apply count_positive in H. congruence. }
  unfold gacha_item_remove, delete_many.
  set (new := {| item_guild_id := g; name := item_name kwargs;
                 description := item_description kwargs; amount := amount;
                 image := item_image kwargs |}).
  assert (Hpos : Z.ltb 0 (count g (item_name kwargs) (items ++ [new])) = true).
  { apply count_positive, named_in_app. right. exists new.
    split; [now left|now split]. }
  apply Z.ltb_lt in Hpos.
  destruct (Z.leb_spec (count g (item_name kwargs) (items ++ [new])) 0);
    [lia|].
  f_equal. rewrite List.filter_app. cbn [List.filter item_guild_id name new].
  rewrite Z.eqb_refl, String.eqb_refl. cbn [andb negb].
  rewrite app_nil_r. apply filter_all. intros it Hin.
  apply negb_true_iff, not_true_iff_false. rewrite named_in_eqb.
  intros [Hg Hn]. apply Hno. now exists it.
Qed.

Lemma add_then_remove_restores_witness :
  let kwargs := {| item_name := "Badge"; item_description := "A badge.";
                   item_amount := None; item_image := None |} in
  let items := [ {| item_guild_id := 2; name := "Badge";
                    description := "Theirs."; amount := 3; image := None |} ] in
  gacha_item_remove 1 "Badge"
    (snd (add_gacha_item_modal (fun _ => Some (-1)) 1 kwargs items))
  = (Return tt, items).
Proof.
  cbv zeta.
  apply (add_then_remove_restores (fun _ => Some (-1)) 1
           {| item_name := "Badge"; item_description := "A badge.";
              item_amount := None; item_image := None |}).
  reflexivity.
Defined.

(** Every item [add_gacha_item_modal] adds has a stock of at least -1, the
    mark of an unlimited item; when the form leaves the amount out, the
    item is added with the amount Python reads from the text -1. *)
Theorem add_gacha_item_amount_floor (int : string -> option Z) (g : Z)
    (kwargs : ModalKwargs) (items : list GachaItem) :
  let r := add_gacha_item_modal int g kwargs items in
  (forall it, In it (snd r) -> In it items \/ -1 <= amount it)
  /\ (Forall (fun it => -1 <= amount it) items ->
      Forall (fun it => -1 <= amount it) (snd r))
  /\ (item_amount kwargs = None -> fst r = Return tt ->
      exists a, int "-1" = Some a
                /\ snd r = items ++ [ {| item_guild_id := g;
                                         name := item_name kwargs;
                                         description := item_description kwargs;
                                         amount := a;
                                         image := item_image kwargs |} ]).
Proof.
  cbv zeta.
  assert (Hin : forall it,
            In it (snd (add_gacha_item_modal int g kwargs items)) ->
            In it items \/ -1 <= amount it).
  { unfold add_gacha_item_modal. cbv zeta.
    destruct (Z.ltb 0 _); [now left|].
    destruct (int _) as [a|]; [|now left].
    destruct (Z.ltb_spec a (-1)); [now left|]. cbn [snd].
    intros it Hit. apply in_app_or in Hit as [Hit|[<-|[]]]; [now left|].
    now right. }
  split; [exact Hin|]. split.
  - intros Hall. apply List.Forall_forall. intros it Hit.
    destruct (Hin it Hit) as [Hold|Hnew]; [|exact Hnew].
    now apply (proj1 (List.Forall_forall _ _) Hall).
  - intros Hnone. unfold add_gacha_item_modal. cbv zeta. rewrite Hnone.
    cbn [default]. destruct (Z.ltb 0 _); [discriminate|].
    destruct (int "-1") as [a|]; [|discriminate].
    destruct (Z.ltb a (-1)); [discriminate|]. intros _. now exists a.
Qed.

End CatalogueMore.

(** ** Pages of the item list *)

Section Pages.
Import Models GachaManagement.
Local Open Scope nat_scope.

Lemma ceil_div_30 (n : nat) :
  n <= (n + 30 - 1) / 30 * 30 /\ (n + 30 - 1) / 30 * 30 < n + 30.
Proof.
  pose proof (Nat.div_mod_eq (n + 30 - 1) 30).
  pose proof (Nat.mod_upper_bound (n + 30 - 1) 30). lia.
Qed.

Lemma chunks_fmap {A : Type} (l : list A) :
  chunks l
  = (fun k => take 30 (drop (k * 30) l)) <$> seq 0 ((length l + 30 - 1) / 30).
Proof.
  unfold chunks, range_step. now rewrite <- list_fmap_compose.
Qed.

Lemma concat_chunks_take {A : Type} (l : list A) (m : nat) :
  concat ((fun k => take 30 (drop (k * 30) l)) <$> seq 0 m) = take (m * 30) l.
Proof.
  induction m as [|m IH]; [reflexivity|].
  rewrite seq_S, fmap_app, concat_app, IH. cbn [fmap list_fmap concat].
  rewrite app_nil_r, take_take_drop. f_equal. lia.
Qed.

Lemma chunks_partition {A : Type} (l : list A) :
  concat (chunks l) = l
  /\ Forall (fun c => 0 < length c <= 30) (chunks l)
  /\ length (chunks l) = (length l + 30 - 1) / 30.
Proof.
  destruct (ceil_div_30 (length l)) as [Hle Hlt].
  rewrite chunks_fmap. split; [|split].
  - rewrite concat_chunks_take. now apply take_ge.
  - apply List.Forall_forall. intros c Hc.
    apply list_elem_of_In, list_elem_of_fmap in Hc as (k & -> & Hk).
    apply list_elem_of_In, in_seq in Hk.
    rewrite length_take, length_drop.
    assert ((k + 1) * 30 <= (length l + 30 - 1) / 30 * 30)
      by (apply Nat.mul_le_mono_r; lia).
    lia.
  - now rewrite length_fmap, length_seq.
Qed.

(** [gacha_view_items] raises exactly when the guild has no item.
    Otherwise its pages are the lines of the guild's items, one per item in
    table order, cut into consecutive chunks of at least 1 and at most 30
    lines: no line is lost, repeated or moved, and [(n + 29) / 30] pages
    are sent for [n] items. *)
Theorem gacha_view_items_pages (g : Z) (items : list GachaItem) :
  let lines := item_line <$> find_many_items g items in
  match gacha_view_items g items with
  | Raise e =>
      find_many_items g items = []
      /\ e = CustomCheckFailure "This server has no items to show."
  | Return pages =>
      find_many_items g items <> []
      /\ exists cs,
           pages = join newline <$> cs
           /\ concat cs = lines
           /\ Forall (fun c => 0 < length c <= 30) cs
           /\ length pages = (length lines + 30 - 1) / 30
  end.
Proof.
  cbv zeta. unfold gacha_view_items.
  destruct (find_many_items g items) as [|i0 found] eqn:E; [now split|].
  rewrite <- E. set (lines := item_line <$> find_many_items g items).
  assert (Hlen : 0 < length lines).
  { unfold lines. rewrite E. cbn. lia. }
  destruct (Nat.ltb_spec 30 (length lines)) as [Hlong|Hshort].
  - split; [rewrite E; discriminate|].
    destruct (chunks_partition lines) as (Hcat & Hall & Hnum).
    exists (chunks lines). rewrite length_fmap. now repeat split.
  - split; [rewrite E; discriminate|].
    exists [lines]. split; [reflexivity|]. split; [apply app_nil_r|].
    split; [constructor; [lia|constructor]|].
    cbn [length]. apply Nat.div_unique with (r := length lines - 1); lia.
Qed.

End Pages.

(** ** Name templates *)

Section Templates.
Import Text BulletConfigCMDs.

Lemma opens_some (s rest : string) :
  opens s = Some rest <-> s = "{{" +:+ rest.
Proof.
  destruct s as [|c1 [|c2 r]]; cbn; try (split; discriminate).
  destruct (Ascii.eqb_spec c1 "{") as [->|H1]; cbn.
  - destruct (Ascii.eqb_spec c2 "{") as [->|H2]; cbn.
    + split; [now intros [= ->]|now intros [= ->]].
    + split; [discriminate|]. intros [= -> _]. congruence.
  - split; [discriminate|]. intros [= -> _]. congruence.
Qed.

Lemma closes_true (l : string) :
  closes l = true <-> exists post, l = "}}" +:+ post.
Proof.
  destruct l as [|c1 [|c2 r]]; cbn;
    try (split; [discriminate|intros [post [=]]]).
  destruct (Ascii.eqb_spec c1 "}") as [->|H1]; cbn.
  - destruct (Ascii.eqb_spec c2 "}") as [->|H2]; cbn.
    + split; [intros _; now exists r|reflexivity].
    + split; [discriminate|]. intros [post [= -> _]]. congruence.
  - split; [discriminate|]. intros [post [= -> _]]. congruence.
Qed.

Lemma before_last_close_some (l group : string) :
  before_last_close l = Some group ->
  exists post, l = group +:+ "}}" +:+ post.
Proof.
  revert group. induction l as [|c l IH]; intros group; [discriminate|].
  cbn [before_last_close]. destruct (before_last_close l) as [g|].
  - intros [= <-]. destruct (IH g eq_refl) as [post ->]. now exists post.
  - destruct (closes (String c l)) eqn:Hc; [|discriminate].
    intros [= <-]. now apply closes_true in Hc.
Qed.

Lemma before_last_close_cons (c : ascii) (l : string) :
  before_last_close (String c l)
  = match before_last_close l with
    | Some group => Some (String c group)
    | None => if closes (String c l) then Some EmptyString else None
    end.
Proof. reflexivity. Qed.

Lemma before_last_close_found (a post : string) :
  is_Some (before_last_close (a +:+ "}}" +:+ post)).
Proof.
  induction a as [|c a IH].
  - rewrite append_nil.
    change ("}}" +:+ post) with (String "}" (String "}" post)).
    rewrite before_last_close_cons.
    destruct (before_last_close (String "}" post)); now eexists.
  - rewrite append_cons, before_last_close_cons.
    destruct IH as [g ->]. now eexists.
Qed.

Lemma line_of_split (s : string) :
  has_char (ascii_of_nat 10) (line_of s) = false
  /\ exists tail, s = line_of s +:+ tail.
Proof.
  induction s as [|c s [IH1 [tail IH2]]].
  - split; [reflexivity|now exists EmptyString].
  - cbn [line_of]. unfold is_newline. destruct (Ascii.eqb_spec c (ascii_of_nat 10)) as [->|Hc].
    + split; [reflexivity|]. now eexists.
    + split.
      * cbn [has_char]. rewrite IH1.
        apply Ascii.eqb_neq in Hc. rewrite Ascii.eqb_sym in Hc. now rewrite Hc.
      * exists tail. rewrite append_cons. now f_equal.
Qed.

Lemma line_of_app (a b : string) :
  has_char (ascii_of_nat 10) a = false ->
  line_of (a +:+ b) = a +:+ line_of b.
Proof.
  induction a as [|c a IH]; intros H; [reflexivity|].
  cbn [has_char] in H. apply orb_false_elim in H as [Hc Ha].
  rewrite !append_cons. cbn [line_of]. unfold is_newline.
  rewrite Ascii.eqb_sym, Hc. now rewrite (IH Ha).
Qed.

Lemma has_char_app (c : ascii) (a b : string) :
  has_char c (a +:+ b) = (has_char c a || has_char c b)%bool.
Proof.
  induction a as [|d a IH]; [reflexivity|].
  rewrite append_cons. cbn [has_char]. rewrite IH. apply orb_assoc.
Qed.

Lemma append_assoc (a b c : string) : (a +:+ b) +:+ c = a +:+ b +:+ c.
Proof.
  induction a as [|d a IH]; [reflexivity|].
  rewrite !append_cons. now f_equal.
Qed.

Lemma match_here_some (s group : string) :
  match_here s = Some group ->
  exists post,
    s = "{{" +:+ group +:+ "}}" +:+ post
    /\ has_char (ascii_of_nat 10) group = false.
Proof.
  unfold match_here. destruct (opens s) as [rest|] eqn:Ho; [|discriminate].
  apply opens_some in Ho as ->. intros Hg.
  destruct (line_of_split rest) as [Hline [tail Hrest]].
  apply before_last_close_some in Hg as [post Hpost].
  rewrite Hpost in Hline. rewrite has_char_app in Hline.
  apply orb_false_elim in Hline as [Hgroup _].
  exists (post +:+ tail). split; [|exact Hgroup].
  rewrite Hrest at 1. rewrite Hpost. now rewrite !append_assoc.
Qed.

Lemma match_here_found (group post : string) :
  has_char (ascii_of_nat 10) group = false ->
  is_Some (match_here ("{{" +:+ group +:+ "}}" +:+ post)).
Proof.
  intros Hfree. unfold match_here.
  rewrite (proj2 (opens_some _ _) eq_refl).
  rewrite (line_of_app group _ Hfree).
  change ("}}" +:+ post) with (String "}" (String "}" post)).
  cbn [line_of]. unfold is_newline. cbn [Ascii.eqb].
  change (if Ascii.eqb "}" (ascii_of_nat 10) then EmptyString
          else String "}" (if Ascii.eqb "}" (ascii_of_nat 10) then EmptyString
                           else String "}" (line_of post)))
    with ("}}" +:+ line_of post).
  apply before_last_close_found.
Qed.

Lemma search_some (s group : string) :
  TEMPLATE_MARKDOWN_search s = Some group -> holds_placeholder s group.
Proof.
  induction s as [|c s IH].
  - cbn. discriminate.
  - cbn [TEMPLATE_MARKDOWN_search].
    destruct (match_here (String c s)) as [g|] eqn:Hm.
    + intros [= <-]. apply match_here_some in Hm as (post & -> & Hfree).
      exists EmptyString, post. now split.
    + intros H. destruct (IH H) as (pre & post & -> & Hfree).
      exists (String c pre), post. now split.
Qed.

Lemma search_found (pre group post : string) :
  has_char (ascii_of_nat 10) group = false ->
  is_Some (TEMPLATE_MARKDOWN_search (pre +:+ "{{" +:+ group +:+ "}}" +:+ post)).
Proof.
  intros Hfree. induction pre as [|c pre IH].
  - rewrite append_nil.
    destruct (match_here_found group post Hfree) as [g Hg].
    change ("{{" +:+ group +:+ "}}" +:+ post)
      with (String "{" (String "{" (group +:+ "}}" +:+ post))) in *.
    cbn [TEMPLATE_MARKDOWN_search]. rewrite Hg. now eexists.
  - rewrite append_cons. cbn [TEMPLATE_MARKDOWN_search].
    destruct (match_here _); [now eexists|exact IH].
Qed.

(** The template pattern is found in a text exactly when the text holds,
    on one line, two opening braces followed somewhere by two closing
    braces; the group found is then text between such braces of the text,
    without a newline. *)
Theorem TEMPLATE_MARKDOWN_search_found (s : string) :
  (is_Some (TEMPLATE_MARKDOWN_search s) <-> exists group, holds_placeholder s group)
  /\ (forall group, TEMPLATE_MARKDOWN_search s = Some group ->
        holds_placeholder s group).
Proof.
  split; [|apply search_some]. split.
  - intros [group H]. exists group. now apply search_some.
  - intros (group & pre & post & -> & Hfree). now apply search_found.
Qed.

Lemma placeholder_ok_true (allowed field : string) :
  placeholder_ok allowed field = true ->
  (forall group, ~ holds_placeholder field group)
  \/ holds_placeholder field allowed.
Proof.
  unfold placeholder_ok.
  destruct (TEMPLATE_MARKDOWN_search field) as [g|] eqn:E.
  - intros H. apply String.eqb_eq in H as <-. right. now apply search_some.
  - intros _. left. intros group (pre & post & -> & Hfree).
    destruct (search_found pre group post Hfree) as [g Hg]. congruence.
Qed.

(** The checks of [bullet_finders_edit] pass only if each of the three
    fields either holds no placeholder at all or holds the one allowed for
    it ([{{bullet_name}}] for the finders, [{{bullet_finder}}] for the best
    finder); a text without two opening braces always passes. *)
Theorem bullet_finders_edit_checks_pass (singular plural best : string) :
  (bullet_finders_edit_checks singular plural best = Return tt ->
   ((forall g, ~ holds_placeholder singular g)
    \/ holds_placeholder singular "bullet_name")
   /\ ((forall g, ~ holds_placeholder plural g)
       \/ holds_placeholder plural "bullet_name")
   /\ ((forall g, ~ holds_placeholder best g)
       \/ holds_placeholder best "bullet_finder"))
  /\ ((forall g, ~ holds_placeholder singular g) ->
      (forall g, ~ holds_placeholder plural g) ->
      (forall g, ~ holds_placeholder best g) ->
      bullet_finders_edit_checks singular plural best = Return tt).
Proof.
  unfold bullet_finders_edit_checks. split.
  - destruct (placeholder_ok "bullet_name" singular) eqn:H1; [|discriminate].
    destruct (placeholder_ok "bullet_name" plural) eqn:H2; [|discriminate].
    destruct (placeholder_ok "bullet_finder" best) eqn:H3; [|discriminate].
    intros _. repeat split; now apply placeholder_ok_true.
  - assert (Hnone : forall allowed field,
              (forall g, ~ holds_placeholder field g) ->
              placeholder_ok allowed field = true).
    { intros allowed field Hno. unfold placeholder_ok.
      destruct (TEMPLATE_MARKDOWN_search field) as [g|] eqn:E; [|reflexivity].
      now destruct (Hno g (search_some _ _ E)). }
    intros H1 H2 H3. now rewrite !Hnone.
Qed.

End Templates.

(** ** Saving a clue *)

Section SaveClue.
Import Text TruthBullet.

Lemma save_id (self r : t) :
  id (if Z.eqb (id r) (id self) then self else r) = id r.
Proof.
  destruct (Z.eqb (id r) (id self)) eqn:E; [|reflexivity].
  apply Z.eqb_eq in E. now symmetry.
Qed.

(** [save] writes the record over the rows of its id and over nothing
    else: the table keeps its length and the ids of its rows in their
    order, a table without a row of that id is left as it is, and saving
    the same record again changes nothing. *)
Theorem save_by_id (self : t) (rows : list t) :
  id <$> save self rows = id <$> rows
  /\ (forall r, In r (save self rows) ->
        (r = self /\ exists r0, In r0 rows /\ id r0 = id self)
        \/ (In r rows /\ id r <> id self))
  /\ ((forall r, In r rows -> id r <> id self) -> save self rows = rows)
  /\ save self (save self rows) = save self rows.
Proof.
  unfold save. repeat split.
  - induction rows as [|r rows IH]; [reflexivity|].
    cbn [map fmap list_fmap] in *. f_equal; [apply save_id|exact IH].
  - intros r Hin. apply in_map_iff in Hin as (r0 & <- & Hin).
    destruct (Z.eqb_spec (id r0) (id self)) as [Heq|Hne].
    + left. split; [reflexivity|]. now exists r0.
    + right. now split.
  - intros Hno. induction rows as [|r rows IH]; [reflexivity|].
    cbn [map]. rewrite IH by (intros r' Hr'; apply Hno; now right).
    destruct (Z.eqb_spec (id r) (id self)) as [Heq|Hne]; [|reflexivity].
    destruct (Hno r (or_introl eq_refl) Heq).
  - rewrite map_map. apply map_ext. intros r.
    destruct (Z.eqb (id r) (id self)) eqn:E; [|now rewrite E].
    now rewrite Z.eqb_refl.
Qed.

(** Once a clue has been saved as found, the substring search returns no
    row of its id, whatever the channel and the text. *)
Theorem save_found_hides_clue (self : t) (rows : list t) (ch : Z)
    (text : string) (r : t) :
  found self = true ->
  find (save self rows) ch text = Some r ->
  id r <> id self.
Proof.
  intros Hfound Hfind Hid. unfold find, query_first in Hfind.
  apply List.find_some in Hfind as [Hin Hw].
  apply (save_writes_discovery_state self rows r Hin) in Hid. subst r.
  apply FIND_TRUTH_BULLET_STR_true in Hw as (_ & Hf & _). congruence.
Qed.

Lemma save_found_hides_clue_witness :
  let clue := TruthBullet.mk 1 10 "key" [] "A brass key." false false None in
  let other := TruthBullet.mk 2 10 "keyhole" [] "A keyhole." false false None in
  let found_clue := TruthBullet.mk 1 10 "key" [] "A brass key." false true (Some 7) in
  find (save found_clue [clue; other]) 10 "the keyhole" = Some other
  /\ id other <> id found_clue.
Proof.
  cbv zeta. split; [reflexivity|].
  apply (save_found_hides_clue _
           [TruthBullet.mk 1 10 "key" [] "A brass key." false false None;
            TruthBullet.mk 2 10 "keyhole" [] "A keyhole." false false None]
           10 "the keyhole"); reflexivity.
Defined.

End SaveClue.
